(** * picca: Pk1D orchestration, DLA masking and DESI blinding

    A shallow embedding of

    - [bin/picca_Pk1D.py]            ([check_linear_binning], [main],
                                      and the closure [process_file]),
    - [delta_extraction/mask.py]     ([_remove_pixels],
                                      [_set_ivar_to_zero], [Mask.__init__]),
    - [delta_extraction/masks/dla_mask.py]
                                     ([dla_profile], [tau_lya], [tau_lyb],
                                      [DlaMask.__init__], [DlaMask.apply_mask]),
    - [delta_extraction/data_catalogues/desi_data.py]
                                     ([DesiData.set_blinding]).

    Floating-point numbers and the numpy/scipy routines the code calls are
    kept behind an interface ([Numeric]); every general theorem holds for
    any implementation of that interface.  Python exceptions are values of
    [exn], and a computation that may raise returns a [result]. *)

From Stdlib Require Import QArith Qround.
From stdpp Require Import gmap strings list fin_maps.

Local Open Scope Z_scope.
Local Open Scope string_scope.
Local Open Scope list_scope.

(** ** Python exceptions *)

Inductive exn : Type :=
| ValueError (msg : string)
| TypeError (msg : string)
| IndexError (msg : string)
| AttributeError (attr : string)
| UnboundLocalError (var : string)
| ZeroDivisionError
| MaskError (msg : string).

Inductive result (A : Type) : Type :=
| Ok (a : A)
| Raise (e : exn).

Arguments Ok {A} a.
Arguments Raise {A} e.

#[global] Instance result_ret : MRet result := fun _ a => Ok a.
#[global] Instance result_bind : MBind result := fun _ _ f m =>
  match m with
  | Ok a => f a
  | Raise e => Raise e
  end.

Definition raises {A} (r : result A) : Prop := exists e, r = Raise e.

(** ** The numeric interface

    [F] stands for numpy's float64 (scalars; arrays are [list F]).  [lit]
    reads a decimal literal of the source.  Comparisons are separate
    boolean operations: nothing relates [flt] to [fge], as is the case for
    floats in the presence of NaN. *)

Class Numeric : Type := {
  F : Type;
  fadd : F -> F -> F;
  fsub : F -> F -> F;
  fmul : F -> F -> F;
  fdiv : F -> F -> F;
  fneg : F -> F;
  flt : F -> F -> bool;
  fgt : F -> F -> bool;
  fle : F -> F -> bool;
  fge : F -> F -> bool;
  feq : F -> F -> bool;
  lit : Q -> F;
  (* 10**x and np.log(10.) *)
  pow10 : F -> F;
  ln10 : F;
  (* np.percentile(a, q), np.median(a), np.mean(a) on 1-D arrays *)
  percentile : list F -> Q -> F;
  median : list F -> F;
  mean : list F -> F
}.

(** What the DLA optical-depth model needs on top: [np.exp], [np.sqrt],
    [np.pi], [scipy.special.voigt_profile(x, sigma, gamma)] and the two
    rest wavelengths [ABSORBER_IGM["LYA"]], [ABSORBER_IGM["LYB"]] of
    [picca.delta_extraction.utils]. *)
Class Special `{Numeric} : Type := {
  fexp : F -> F;
  fsqrt : F -> F;
  pi : F;
  voigt_profile : F -> F -> F -> F;
  LAMBDA_LYA : F;
  LAMBDA_LYB : F
}.

Declare Scope float_scope.
Delimit Scope float_scope with fl.
Infix "+" := fadd : float_scope.
Infix "-" := fsub : float_scope.
Infix "*" := fmul : float_scope.
Infix "/" := fdiv : float_scope.

(** ** One-dimensional numpy arrays *)

Section Arrays.
Context `{Numeric}.

(** [np.diff(a)] *)
Fixpoint np_diff (a : list F) : list F :=
  match a with
  | x :: (y :: _) as tl => (y - x)%fl :: np_diff tl
  | _ => []
  end.

(** [a op b] for two 1-D arrays: shapes [(n,)] and [(m,)] broadcast when
    they agree or when one of them is [(1,)]; any other pair raises. *)
Definition broadcast2 (op : F -> F -> F) (a b : list F) : result (list F) :=
  if decide (length a = length b) then Ok (zip_with op a b)
  else match a, b with
       | [x], _ => Ok (map (op x) b)
       | _, [y] => Ok (map (fun x => op x y) a)
       | _, _ => Raise (ValueError "operands could not be broadcast together")
       end.

(** [a op= b] in place: the left operand keeps its shape, so only the
    right operand may be stretched. *)
Definition inplace2 (op : F -> F -> F) (a b : list F) : result (list F) :=
  if decide (length a = length b) then Ok (zip_with op a b)
  else match b with
       | [y] => Ok (map (fun x => op x y) a)
       | _ => Raise (ValueError "non-broadcastable output operand")
       end.

(** [a[w]] for a boolean mask [w]: lengths must agree. *)
Fixpoint select {A} (a : list A) (w : list bool) : list A :=
  match a, w with
  | x :: a', b :: w' => if b then x :: select a' w' else select a' w'
  | _, _ => []
  end.

Definition bool_index {A} (a : list A) (w : list bool) : result (list A) :=
  if decide (length a = length w) then Ok (select a w)
  else Raise (IndexError "boolean index did not match indexed array").

(** [a[~w] = 0] in place. *)
Fixpoint zero_where_not (a : list F) (w : list bool) : list F :=
  match a, w with
  | x :: a', b :: w' => (if b then x else lit 0) :: zero_where_not a' w'
  | _, _ => a
  end.

Definition bool_assign_zero (a : list F) (w : list bool) : result (list F) :=
  if decide (length a = length w) then Ok (zero_where_not a w)
  else Raise (IndexError "boolean index did not match indexed array").

(** [w1 & w2] on boolean arrays of one length (the only use in the code:
    both sides are comparisons of the same array). *)
Definition band (w1 w2 : list bool) : list bool := zip_with andb w1 w2.
Definition bor (w1 w2 : list bool) : list bool := zip_with orb w1 w2.

End Arrays.

(** ** [check_linear_binning] (picca_Pk1D.py)

    A [Delta] carries the fields of [picca.data.Delta] that the script
    reads. *)

Record Delta `{Numeric} : Type := {
  mean_snr : F;
  mean_reso : F;
  log_lambda : list F;
  delta : list F;
  exposures_diff : list F;
  ivar : list F;
  resolution_matrix : option (list (list F))
}.


Definition msg_lambda_as_log : string :=
  "Could not figure out if linear or log wavelength binning was used, probably submitted lambda as log_lambda".
Definition msg_unclassified : string :=
  "Could not figure out if linear or log wavelength binning was used".

Section Binning.
Context `{Numeric}.

(** [np.percentile] of an empty array (fewer than two pixels, so that
    [np.diff] is empty) indexes past its end. *)
Definition msg_percentile_empty : string :=
  "index -1 is out of bounds for axis 0 with size 0".

Definition check_linear_binning (delta : Delta) : result (bool * F) :=
  let diff_lambda := np_diff (map pow10 (log_lambda delta)) in
  let diff_log_lambda := np_diff (log_lambda delta) in
  if decide (length diff_lambda = 0%nat) then
    Raise (IndexError msg_percentile_empty)
  else
  let q5_lambda := percentile diff_lambda 5 in
  let q25_lambda := percentile diff_lambda 25 in
  let q5_log_lambda := percentile diff_log_lambda 5 in
  let q25_log_lambda := percentile diff_log_lambda 25 in
  if flt (q25_lambda - q5_lambda)%fl (lit (1 # 1000000)) then
    Ok (true, median diff_lambda)
  else if flt (q25_log_lambda - q5_log_lambda)%fl (lit (1 # 1000000))
          && flt q5_log_lambda (lit (1 # 100)) then
    Ok (false, median diff_log_lambda)
  else if fge q5_log_lambda (lit (1 # 100)) then
    Raise (ValueError msg_lambda_as_log)
  else
    Raise (ValueError msg_unclassified).

(** The quantities the classifier is described by. *)
Definition lin_diffs (x : list F) : list F := np_diff (map pow10 x).
Definition log_diffs (x : list F) : list F := np_diff x.
Definition gap (d : list F) : F := (percentile d 25 - percentile d 5)%fl.
Definition small_gap (d : list F) : bool := flt (gap d) (lit (1 # 1000000)).

End Binning.

(** ** The Pk1D driver (picca_Pk1D.py)

    [picca.pk1d] and [picca.constants] are imported by the script; their
    functions are the fields of [Pk1dLib].  [compute_pk_noise] draws from
    numpy's global generator, so the generator state [Rng] is threaded
    through it; the other helpers are taken as functions of their
    arguments, and no statement below is about the generator after a
    call of one of them. *)

Record Args `{Numeric} : Type := {
  SNR_min : F;
  reso_max : F;
  lambda_obs_min : F;
  nb_part : Z;
  nb_pixel_min : Z;
  nb_pixel_masked_max : Z;
  no_apply_filling : bool;
  noise_estimate : string;
  disable_reso_matrix : bool;
  force_output_in_velocity : bool
}.

Inductive reso_kind : Type := Gaussian | matrix.

(** The variables [linear_binning], [delta_lam] (read as [delta_lambda] or
    [delta_log_lambda]) and [reso_correction] that [main] sets on the
    first file and [process_file] closes over. *)
Record Binning `{Numeric} : Type := {
  linear_binning : bool;
  delta_lam : F;
  reso_correction : reso_kind
}.

Record SplitResult `{Numeric} : Type := {
  mean_z_array : list F;
  coord_array : list (list F);
  delta_array : list (list F);
  exposures_diff_array : list (list F);
  ivar_array : list (list F)
}.

Record Filled `{Numeric} : Type := {
  coord_new : list F;
  delta_new : list F;
  exposures_diff_new : list F;
  ivar_new : list F;
  num_masked_pixels : Z
}.

Class Pk1dLib `{Numeric} : Type := {
  Rng : Type;
  speed_light : F;
  split_forest :
    Z -> F -> list F -> list F -> list F -> list F -> nat ->
    option (list (list F)) -> SplitResult;
  rebin_diff_noise : F -> list F -> list F -> list F;
  fill_masked_pixels :
    F -> list F -> list F -> list F -> list F -> bool -> Filled;
  compute_pk_raw : F -> list F -> bool -> list F * list F;
  compute_pk_noise :
    Rng -> F -> list F -> list F -> bool -> bool -> (list F * list F) * Rng;
  compute_correction_reso : F -> F -> list F -> list F;
  compute_correction_reso_matrix :
    option (list (list F)) -> list F -> F -> nat -> list F
}.

Record PkRecord `{Numeric} : Type := {
  rec_k : list F;
  rec_pk_raw : list F;
  rec_pk_noise : list F;
  rec_pk_diff : list F;
  rec_correction_reso : list F;
  rec_pk : list F;
  rec_mean_z : F;
  rec_num_masked_pixels : Z
}.

Section Pk1D.
Context `{Numeric} `{!Pk1dLib}.

(** [x[i]] on a Python list or numpy array, [i >= 0]. *)
Definition index {A} (l : list A) (i : nat) : result A :=
  match l !! i with
  | Some x => Ok x
  | None => Raise (IndexError "index out of range")
  end.

(** [np.any] and [np.argmax] on a boolean array. *)
Definition np_any (w : list bool) : bool := existsb id w.

Fixpoint np_argmax (w : list bool) : nat :=
  match w with
  | [] => 0
  | b :: w' => if b then 0 else if np_any w' then S (np_argmax w') else 0
  end.

Definition selected_pixels (args : Args) (d : Delta) : list bool :=
  map (fun x => fgt (pow10 x) (lambda_obs_min args)) (log_lambda d).

Definition first_pixel_index (args : Args) (d : Delta) : nat :=
  let sel := selected_pixels args d in
  if np_any sel then np_argmax sel else length sel.

(** [len(delta.log_lambda) - first_pixel_index] *)
Definition pixels_left (args : Args) (d : Delta) : Z :=
  Z.of_nat (length (log_lambda d)) - Z.of_nat (first_pixel_index args d).

(** Lines 295-297.  [//] is floor division, which is [Z.div].  With a
    zero divisor the outcome depends on the type of [first_pixel_index]:
    when a pixel is selected it is the numpy integer returned by
    [np.argmax], and numpy's floor division by zero gives 0 (with a
    warning); otherwise it is the Python integer [len(selected_pixels)],
    and Python's division raises. *)
Definition max_num_parts (args : Args) (d : Delta) : result Z :=
  if decide (nb_pixel_min args = 0) then
    if np_any (selected_pixels args d) then Ok 0
    else Raise ZeroDivisionError
  else Ok (pixels_left args d / nb_pixel_min args).

Definition num_parts (args : Args) (d : Delta) : result Z :=
  m ← max_num_parts args d; Ok (Z.min (nb_part args) m).

Definition is_rebin (ne : string) : bool :=
  bool_decide (ne = "rebin_diff") || bool_decide (ne = "mean_rebin_diff").

(** Lines 410-422, "Compute 1D Pk".  [pk] is the value of the local
    variable before the statement ([None]: not yet bound); the result is
    its value after it. *)
Definition low_k_band (ne : string) (k : list F) : list bool :=
  let selection :=
    band (map (fun x => fgt x (lit 0)) k)
         (map (fun x => flt x (lit (2 # 100))) k) in
  if decide (ne = "mean_rebin_diff") then
    band (map (fun x => fgt x (lit (3 # 1000))) k)
         (map (fun x => flt x (lit (2 # 100))) k)
  else selection.

Definition compute_pk (ne : string)
    (k pk_raw pk_noise pk_diff correction_reso : list F)
    (pk : option (list F)) : result (option (list F)) :=
  if decide (ne = "pipeline") then
    d ← broadcast2 fsub pk_raw pk_noise;
    p ← broadcast2 fdiv d correction_reso; Ok (Some p)
  else if decide (ne = "diff" \/ ne = "rebin_diff") then
    d ← broadcast2 fsub pk_raw pk_diff;
    p ← broadcast2 fdiv d correction_reso; Ok (Some p)
  else if decide (ne = "mean_diff" \/ ne = "mean_rebin_diff") then
    band_diff ← bool_index pk_diff (low_k_band ne k);
    let mean_pk_diff := mean band_diff in
    p ← broadcast2 fdiv (map (fun x => x - mean_pk_diff)%fl pk_raw)
                   correction_reso;
    Ok (Some p)
  else Ok pk.

(** The factor of lines 425-426. *)
Definition velocity_factor (lambda_new : list F) : F :=
  (speed_light / lit 1000 / mean lambda_new)%fl.

Definition read_local {A} (name : string) (v : option A) : result A :=
  match v with
  | Some x => Ok x
  | None => Raise (UnboundLocalError name)
  end.

(** Lines 383-408, the resolution correction. *)
Definition resolution_correction (bin : Binning) (d : Delta)
    (k lambda_new : list F) : list F :=
  if linear_binning bin then
    match reso_correction bin with
    | matrix =>
        compute_correction_reso_matrix (resolution_matrix d) k
          (delta_lam bin) (length lambda_new)
    | Gaussian =>
        let mean_reso_AA :=
          (delta_lam bin * mean_reso d / ln10 / speed_light * lit 1000)%fl in
        compute_correction_reso (delta_lam bin) mean_reso_AA k
    end
  else
    let delta_pixel := (delta_lam bin * ln10 * speed_light / lit 1000)%fl in
    compute_correction_reso delta_pixel (mean_reso d) k.

(** What one pass of the loop over [range(num_parts)] carries over to the
    next: the (mutated) list [exposures_diff_array], the generator, the
    local [pk], and [pk_list]. *)
Record LoopState : Type := {
  st_exposures_diff : list (list F);
  st_rng : Rng;
  st_pk : option (list F);
  st_pk_list : list PkRecord
}.

(** Lines 356-430: the part of the loop body after the masked-pixel
    test, for a segment that was not skipped. *)
Definition emit_part (args : Args) (bin : Binning) (d : Delta)
    (sp : SplitResult) (part_index : nat) (fl : Filled) (st : LoopState)
  : result LoopState :=
  let '(k, pk_raw) :=
    compute_pk_raw (delta_lam bin) (delta_new fl) (linear_binning bin) in
  let run_noise := bool_decide (noise_estimate args = "pipeline") in
  let '((pk_noise, pk_diff), rng') :=
    compute_pk_noise (st_rng st) (delta_lam bin) (ivar_new fl)
      (exposures_diff_new fl) run_noise (linear_binning bin) in
  let correction_reso := resolution_correction bin d k (coord_new fl) in
  pk ← compute_pk (noise_estimate args) k pk_raw pk_noise pk_diff
         correction_reso (st_pk st);
  '(k, pk) ←
    (if force_output_in_velocity args && linear_binning bin then
       p ← read_local "pk" pk;
       let f := velocity_factor (coord_new fl) in
       Ok (map (fun x => x / f)%fl k, Some (map (fun x => x * f)%fl p))
     else Ok (k, pk));
  p ← read_local "pk" pk;
  mean_z ← index (mean_z_array sp) part_index;
  Ok {| st_exposures_diff := st_exposures_diff st;
        st_rng := rng';
        st_pk := pk;
        st_pk_list :=
          st_pk_list st ++
          [{| rec_k := k; rec_pk_raw := pk_raw; rec_pk_noise := pk_noise;
              rec_pk_diff := pk_diff; rec_correction_reso := correction_reso;
              rec_pk := p; rec_mean_z := mean_z;
              rec_num_masked_pixels := num_masked_pixels fl |}] |}.

(** Lines 326-352: optional rebinning of the difference spectrum (stored
    back into the list) and filling of the masked pixels. *)
Definition fill_part (args : Args) (bin : Binning) (sp : SplitResult)
    (part_index : nat) (eda : list (list F))
  : result (list (list F) * Filled) :=
  eda ←
    (if is_rebin (noise_estimate args) then
       c ← index (coord_array sp) part_index;
       e ← index eda part_index;
       Ok (<[part_index := rebin_diff_noise (delta_lam bin) c e]> eda)
     else Ok eda);
  c ← index (coord_array sp) part_index;
  dl ← index (delta_array sp) part_index;
  e ← index eda part_index;
  iv ← index (ivar_array sp) part_index;
  Ok (eda, fill_masked_pixels (delta_lam bin) c dl e iv
             (no_apply_filling args)).

Definition part_step (args : Args) (bin : Binning) (d : Delta)
    (sp : SplitResult) (part_index : nat) (st : LoopState)
  : result LoopState :=
  '(eda, fl) ← fill_part args bin sp part_index (st_exposures_diff st);
  let st := {| st_exposures_diff := eda; st_rng := st_rng st;
               st_pk := st_pk st; st_pk_list := st_pk_list st |} in
  if decide (num_masked_pixels fl > nb_pixel_masked_max args) then Ok st
  else emit_part args bin d sp part_index fl st.

Fixpoint part_loop (args : Args) (bin : Binning) (d : Delta)
    (sp : SplitResult) (parts : list nat) (st : LoopState)
  : result LoopState :=
  match parts with
  | [] => Ok st
  | i :: rest =>
      st' ← part_step args bin d sp i st;
      part_loop args bin d sp rest st'
  end.

Definition call_split_forest (args : Args) (bin : Binning) (d : Delta)
    (n : Z) : SplitResult :=
  split_forest n (delta_lam bin)
    (if linear_binning bin then map pow10 (log_lambda d) else log_lambda d)
    (delta d) (exposures_diff d) (ivar d) (first_pixel_index args d)
    (match reso_correction bin with
     | matrix => resolution_matrix d
     | Gaussian => None
     end).

Definition snr_reso_cut (args : Args) (d : Delta) : bool :=
  fle (mean_snr d) (SNR_min args) || fge (mean_reso d) (reso_max args).

Definition process_file (args : Args) (bin : Binning) (rng : Rng)
    (d : Delta) : result (option (list PkRecord) * Rng) :=
  if snr_reso_cut args d then Ok (None, rng)
  else if decide (pixels_left args d < nb_pixel_min args) then Ok (None, rng)
  else
    n ← num_parts args d;
    let sp := call_split_forest args bin d n in
    st ← part_loop args bin d sp (seq 0 (Z.to_nat n))
           {| st_exposures_diff := exposures_diff_array sp; st_rng := rng;
              st_pk := None; st_pk_list := [] |};
    Ok (Some (st_pk_list st), st_rng st).

(** ** [main]: the loop over input files (sequential path,
    [num_processors <= 1]).  A file is the list of its deltas; the
    output keeps, per file, the list [pk_list_of_lists]. *)

Definition msg_not_exception : string :=
  "exceptions must derive from BaseException".

Definition first_file_binning (args : Args) (d : Delta) : result Binning :=
  '(lin, dl) ← check_linear_binning d;
  Ok {| linear_binning := lin; delta_lam := dl;
        reso_correction :=
          if lin then
            if disable_reso_matrix args
               || bool_decide (resolution_matrix d = None)
            then Gaussian else matrix
          else Gaussian |}.

(** Lines 247-253.  The [assert]s sit in a [try] whose handler executes
    [raise ("...")]: raising a string is itself a [TypeError]. *)
Definition later_file_check (bin : Binning) (d : Delta) : result unit :=
  '(lin2, dl2) ← check_linear_binning d;
  if bool_decide (lin2 = linear_binning bin) && feq dl2 (delta_lam bin)
  then Ok tt
  else Raise (TypeError msg_not_exception).

Fixpoint process_deltas (args : Args) (bin : Binning) (rng : Rng)
    (deltas : list Delta)
  : result (list (option (list PkRecord)) * Rng) :=
  match deltas with
  | [] => Ok ([], rng)
  | d :: rest =>
      '(r, rng) ← process_file args bin rng d;
      '(rs, rng) ← process_deltas args bin rng rest;
      Ok (r :: rs, rng)
  end.

Record MainState : Type := {
  m_binning : option Binning;
  m_rng : Rng;
  m_written : list (list (option (list PkRecord)))
}.

Definition file_step (args : Args) (file_index : nat) (deltas : list Delta)
    (st : MainState) : result MainState :=
  d0 ← index deltas 0;
  bin ←
    (if decide (file_index = 0%nat) then first_file_binning args d0
     else
       bin ← read_local "linear_binning" (m_binning st);
       _ ← later_file_check bin d0;
       Ok bin);
  '(out, rng) ← process_deltas args bin (m_rng st) deltas;
  Ok {| m_binning := Some bin; m_rng := rng;
        m_written := m_written st ++ [out] |}.

Fixpoint file_loop (args : Args) (file_index : nat)
    (files : list (list Delta)) (st : MainState) : result MainState :=
  match files with
  | [] => Ok st
  | deltas :: rest =>
      st' ← file_step args file_index deltas st;
      file_loop args (S file_index) rest st'
  end.

Definition main (args : Args) (rng : Rng) (files : list (list Delta))
  : result (list (list (option (list PkRecord)))) :=
  st ← file_loop args 0 files
         {| m_binning := None; m_rng := rng; m_written := [] |};
  Ok (m_written st).

(** Lines 507-514: the units written for the six columns [k], [Pk_raw],
    [Pk_noise], [Pk_diff], [cor_reso] and [Pk] of the output table. *)
Definition column_units (args : Args) (linear_binning : bool)
  : list string :=
  let baseunit :=
    if linear_binning && negb (force_output_in_velocity args)
    then "AA" else "km/s" in
  [String.append "(" (String.append baseunit ")^-1");
   baseunit; baseunit; baseunit; baseunit; baseunit].

End Pk1D.

(** ** Masks (mask.py, masks/dla_mask.py)

    [_remove_pixels] and [_set_ivar_to_zero] reach the forest's arrays by
    name ([getattr]/[setattr]), so a forest is its line-of-sight id and a
    finite map from attribute names to arrays.  An array is 1-D, or 2-D
    (the resolution matrix, a list of rows). *)

Inductive Value `{Numeric} : Type :=
| Arr (a : list F)
| Arr2 (m : list (list F)).

Record Forest `{Numeric} : Type := {
  los_id : Z;
  attrs : gmap string Value
}.

Inductive masker : Type := set_ivar_to_zero | remove_pixels.

(** [Mask.__init__]: the attribute [los_id] (an empty dict) and the choice
    of [_masker]. *)
Record Mask : Type := {
  Mask_los_id : gmap Z unit;
  _masker : masker
}.

Definition Mask_init (keep_masked_pixels : bool) : Mask :=
  {| Mask_los_id := ∅;
     _masker := if keep_masked_pixels then set_ivar_to_zero
                else remove_pixels |}.

Record MaskRow `{Numeric} : Type := {
  row_type : string;
  wave_min : F;
  wave_max : F;
  frame : string
}.

(** What iterating over [self.mask] yields: a row of the table, or, once
    the table has been replaced by the result of a column comparison, a
    numpy boolean. *)
Inductive MaskItem `{Numeric} : Type :=
| TableRow (r : MaskRow)
| BoolScalar (b : bool).

Record DlaMask `{Numeric} : Type := {
  base : Mask;
  los_ids : gmap Z (list (F * F));
  dla_mask_limit : F;
  mask : list MaskItem
}.

Section Masks.
Context `{Numeric}.

Definition getattr (forest : Forest) (param : string) : result Value :=
  match attrs forest !! param with
  | Some v => Ok v
  | None => Raise (AttributeError param)
  end.

Definition setattr (forest : Forest) (param : string) (v : Value) : Forest :=
  {| los_id := los_id forest; attrs := <[param := v]> (attrs forest) |}.

(** The attributes the code uses as 1-D arrays ([forest.log_lambda],
    [forest.transmission_correction]).  [Forest] keeps them 1-D; a 2-D
    value there is outside this model. *)
Definition getattr1 (forest : Forest) (param : string) : result (list F) :=
  v ← getattr forest param;
  match v with
  | Arr a => Ok a
  | Arr2 _ => Raise (TypeError "1-D array expected")
  end.

(** [a[:, w]] *)
Definition column_index (m : list (list F)) (w : list bool)
  : result (list (list F)) :=
  if decide (Forall (fun row => length row = length w) m)
  then Ok (map (fun row => select row w) m)
  else Raise (IndexError "boolean index did not match indexed array").

Definition _remove_pixels (forest : Forest) (param : string)
    (w : list bool) : result Forest :=
  v ← getattr forest param;
  if decide (param = "resolution_matrix") then
    match v with
    | Arr2 m => m' ← column_index m w; Ok (setattr forest param (Arr2 m'))
    | Arr _ => Raise (IndexError "too many indices for array")
    end
  else
    match v with
    | Arr a => a' ← bool_index a w; Ok (setattr forest param (Arr a'))
    | Arr2 m => m' ← bool_index m w; Ok (setattr forest param (Arr2 m'))
    end.

(** [a[~w] = 0] on a 2-D array zeroes the rows selected by [~w]. *)
Fixpoint zero_rows_where_not (m : list (list F)) (w : list bool)
  : list (list F) :=
  match m, w with
  | row :: m', b :: w' =>
      (if b then row else map (fun _ => lit 0) row)
        :: zero_rows_where_not m' w'
  | _, _ => m
  end.

Definition _set_ivar_to_zero (forest : Forest) (param : string)
    (w : list bool) : result Forest :=
  if decide (param = "ivar") then
    v ← getattr forest "ivar";
    match v with
    | Arr a => a' ← bool_assign_zero a w; Ok (setattr forest "ivar" (Arr a'))
    | Arr2 m =>
        if decide (length m = length w)
        then Ok (setattr forest "ivar" (Arr2 (zero_rows_where_not m w)))
        else Raise (IndexError "boolean index did not match indexed array")
    end
  else Ok forest.

Definition call_masker (m : masker) (forest : Forest) (param : string)
    (w : list bool) : result Forest :=
  match m with
  | set_ivar_to_zero => _set_ivar_to_zero forest param w
  | remove_pixels => _remove_pixels forest param w
  end.

(** [for param in Forest.mask_fields: self._masker(forest, param, w)] *)
Fixpoint mask_fields_loop (m : masker) (fields : list string)
    (forest : Forest) (w : list bool) : result Forest :=
  match fields with
  | [] => Ok forest
  | param :: rest =>
      forest' ← call_masker m forest param w;
      mask_fields_loop m rest forest' w
  end.

(** Number of pixels a keep-mask drops. *)
Fixpoint num_masked (w : list bool) : nat :=
  match w with
  | [] => 0
  | b :: w' => if b then num_masked w' else S (num_masked w')
  end.

(** A mask field with [n] pixels: the resolution matrix is 2-D with [n]
    columns, every other field is 1-D of length [n]. *)
Definition pixels (param : string) (v : Value) (n : nat) : Prop :=
  if decide (param = "resolution_matrix")
  then exists m, v = Arr2 m /\ Forall (fun row => length row = n) m
  else exists a, v = Arr a /\ length a = n.

Definition has_mask_fields (fields : list string) (forest : Forest)
    (n : nat) : Prop :=
  forall p, p ∈ fields ->
    exists v, attrs forest !! p = Some v /\ pixels p v n.

(** A field cut down to the kept pixels: a 1-D array by position, a
    matrix column by column. *)
Definition slice (v : Value) (w : list bool) : Value :=
  match v with
  | Arr a => Arr (select a w)
  | Arr2 m => Arr2 (map (fun row => select row w) m)
  end.

End Masks.

Section Dla.
Context `{Numeric} `{!Special}.

(** [tau_lya] and [tau_lyb] at one wavelength (the source applies them
    to the whole array elementwise).  [e**2] is written [e * e]. *)
Definition tau_line (LAMBDA f gamma : F) (lambda_ z_abs nhi : F) : F :=
  let e := lit (16021 # 100000000000000000000000) in
  let epsilon0 := lit (88541 # 10000000000000000) in
  let mp := lit (16726 # 10000000000000000000000000000000) in
  let me := lit (9109 # 10000000000000000000000000000000000) in
  let c := lit 299790000 in
  let k := lit (13806 # 1000000000000000000000000000) in
  let T := (lit 5 * lit 10000)%fl in
  let lambda_rest_frame := (lambda_ / (lit 1 + z_abs))%fl in
  let v := (c * (lambda_rest_frame / LAMBDA - lit 1))%fl in
  let b := fsqrt (lit 2 * k * T / mp)%fl in
  let small_gamma :=
    (gamma * LAMBDA / (lit 4 * pi) * lit (1 # 10000000000))%fl in
  let nhi_m2 := (pow10 nhi * lit 10000)%fl in
  let tau :=
    (nhi_m2 * pi * (e * e) * f * LAMBDA * lit (1 # 10000000000))%fl in
  let tau := (tau / (lit 4 * pi * epsilon0 * me * c))%fl in
  (tau * voigt_profile v (b / fsqrt (lit 2))%fl small_gamma)%fl.

Definition tau_lya : F -> F -> F -> F :=
  tau_line LAMBDA_LYA (lit (4164 # 10000)) (lit 626480000).

Definition tau_lyb : F -> F -> F -> F :=
  tau_line LAMBDA_LYB (lit (7912 # 100000)) (lit (41641 # 100000)).

Definition dla_profile (lambda_ : list F) (z_abs nhi : F) : list F :=
  map (fun l => fexp (fneg (tau_lya l z_abs nhi) - tau_lyb l z_abs nhi)%fl)
      lambda_.

(** [DlaMask.__init__], after the files have been read: [config] is the
    parsed section (option names to strings), [cat] the rows
    (los_id, z, NHI) of the DLACAT extension, [limit] the value of
    [config.getfloat("dla mask limit")], and [mask_table] the table read
    from the "mask file" option, if that option is set.

    [super().__init__(config)] hands the section itself to the
    parameter [keep_masked_pixels], which is then tested for truth: a
    section is true when it has at least one option. *)
Definition group_los_ids (cat : list (Z * F * F)) : gmap Z (list (F * F)) :=
  fold_left
    (fun m '(id, z, nhi) =>
       <[id := (default [] (m !! id) ++ [(z, nhi)])%list]> m)
    cat ∅.

Definition DlaMask_init (config : gmap string string)
    (cat : list (Z * F * F)) (limit : option F)
    (mask_table : option (list MaskRow)) : result DlaMask :=
  let b := Mask_init (bool_decide (config ≠ ∅)) in
  if decide (config !! "filename" = None) then
    Raise (MaskError "Missing argument 'filename' required by DlaMask")
  else if decide (config !! "los_id name" = None) then
    Raise (MaskError "Missing argument 'los_id name' required by DlaMask")
  else
    match limit with
    | None =>
        Raise (MaskError "Missing argument 'dla mask limit' required by DlaMask")
    | Some lim =>
        Ok {| base := b;
              los_ids := group_los_ids cat;
              dla_mask_limit := lim;
              mask :=
                match mask_table with
                | Some rows =>
                    (* self.mask = self.mask['frame'] == 'RF_DLA' *)
                    map (fun r => BoolScalar (bool_decide (frame r = "RF_DLA")))
                        rows
                | None => []
                end |}
    end.

(** [mask_range['wave_min']] *)
Definition item (field : MaskRow -> F) (mask_range : MaskItem) : result F :=
  match mask_range with
  | TableRow r => Ok (field r)
  | BoolScalar _ => Raise (IndexError "invalid index to scalar variable.")
  end.

(** Lines 269-272 *)
Definition dla_transmission (lambda_ : list F) (dlas : list (F * F))
  : list F :=
  fold_left
    (fun t '(z_abs, nhi) => zip_with fmul t (dla_profile lambda_ z_abs nhi))
    dlas (replicate (length lambda_) (lit 1)).

(** Lines 278-281, the inner loop over the absorbers *)
Fixpoint exclude_range (lambda_ : list F) (mask_range : MaskItem)
    (dlas : list (F * F)) (w : list bool) : result (list bool) :=
  match dlas with
  | [] => Ok w
  | (z_abs, nhi) :: rest =>
      let rf := map (fun l => l / (lit 1 + z_abs))%fl lambda_ in
      lo ← item wave_min mask_range;
      hi ← item wave_max mask_range;
      exclude_range lambda_ mask_range rest
        (band w (bor (map (fun x => flt x lo) rf)
                     (map (fun x => fgt x hi) rf)))
  end.

(** Lines 276-281 *)
Fixpoint exclude_ranges (lambda_ : list F) (ranges : list MaskItem)
    (dlas : list (F * F)) (w : list bool) : result (list bool) :=
  match ranges with
  | [] => Ok w
  | mask_range :: rest =>
      w' ← exclude_range lambda_ mask_range dlas w;
      exclude_ranges lambda_ rest dlas w'
  end.

Definition keep_mask (self : DlaMask) (lambda_ : list F)
    (dlas : list (F * F)) : result (list bool) :=
  let w := map (fun t => fgt t (dla_mask_limit self))
               (dla_transmission lambda_ dlas) in
  exclude_ranges lambda_ (mask self) dlas w.

(** [DlaMask.apply_mask]; [mask_fields] is [Forest.mask_fields]. *)
Definition apply_mask (mask_fields : list string) (self : DlaMask)
    (forest : Forest) : result Forest :=
  log_lambda ← getattr1 forest "log_lambda";
  let lambda_ := map pow10 log_lambda in
  match los_ids self !! los_id forest with
  | None => Ok forest
  | Some dlas =>
      w ← keep_mask self lambda_ dlas;
      tc ← getattr1 forest "transmission_correction";
      tc' ← inplace2 fmul tc (dla_transmission lambda_ dlas);
      let forest := setattr forest "transmission_correction" (Arr tc') in
      mask_fields_loop (_masker (base self)) mask_fields forest w
  end.

(** The keep-mask as the documentation describes it, pixel by pixel:
    transmission above the limit, and outside every exclusion range in
    the rest frame of every absorber. *)
Definition outside (r : MaskRow) (z_abs : F) (l : F) : bool :=
  let rf := (l / (lit 1 + z_abs))%fl in
  flt rf (wave_min r) || fgt rf (wave_max r).

Definition keep_pixel (limit : F) (rows : list MaskRow)
    (dlas : list (F * F)) (l t : F) : bool :=
  fgt t limit
  && forallb (fun r => forallb (fun d => outside r (fst d) l) dlas) rows.

(** The cumulative transmission at one wavelength: the product of the
    profiles of the absorbers, starting from 1. *)
Definition profile_at (l : F) (d : F * F) : F :=
  fexp (fneg (tau_lya l d.1 d.2) - tau_lyb l d.1 d.2)%fl.

Definition transmission_at (dlas : list (F * F)) (l : F) : F :=
  fold_left (fun t d => (t * profile_at l d)%fl) dlas (lit 1).

End Dla.

(** ** [DesiData.set_blinding] (desi_data.py)

    The state touched: the instance attribute [self.blinding], the class
    attribute [Forest.blinding], and the logger (a list of warnings). *)

Record BlindingState : Type := {
  self_blinding : string;
  Forest_blinding : option string;
  warnings : list string
}.

Definition warn (msg : string) (s : BlindingState) : BlindingState :=
  {| self_blinding := self_blinding s;
     Forest_blinding := Forest_blinding s;
     warnings := (warnings s ++ [msg])%list |}.

Definition set_self_blinding (b : string) (s : BlindingState) : BlindingState :=
  {| self_blinding := b;
     Forest_blinding := Forest_blinding s;
     warnings := warnings s |}.

Definition publish_blinding (s : BlindingState) : BlindingState :=
  {| self_blinding := self_blinding s;
     Forest_blinding := Some (self_blinding s);
     warnings := warnings s |}.

Definition blinding_warning (selected reason target : string) : string :=
  ("Selected blinding, " ++ selected ++ " is being ignored as "
   ++ reason ++ ". '" ++ target ++ "' blinding engaged")%string.

Definition blinding_override (target reason : string) (s : BlindingState)
  : BlindingState :=
  if decide (self_blinding s = target) then s
  else set_self_blinding target
         (warn (blinding_warning (self_blinding s) reason target) s).

Definition blinding_reason (is_mock is_sv : bool) : string :=
  if is_mock then "mocks should not be blinded"
  else if is_sv then "SV data should not be blinded"
  else "data should be blinded".

Definition set_blinding (is_mock is_sv : bool) (s : BlindingState)
  : BlindingState :=
  let s1 :=
    if is_mock then
      blinding_override "none" (blinding_reason true is_sv) s
    else if is_sv then
      blinding_override "none" (blinding_reason false true) s
    else
      blinding_override "corr_yshift" (blinding_reason false false) s in
  publish_blinding s1.

Definition blinding_target (is_mock is_sv : bool) : string :=
  if is_mock || is_sv then "none" else "corr_yshift".

(** ** The final power as the documentation states it

    [noise_term] follows the description of the five noise-estimate
    modes; [combined] is (raw - noise) / correction, elementwise. *)

Section PowerSpec.
Context `{Numeric}.

Definition k_between (lo hi : Q) (k : list F) : list bool :=
  map (fun x => fgt x (lit lo) && flt x (lit hi)) k.

Definition noise_term (ne : string) (k pk_raw pk_noise pk_diff : list F)
  : option (list F) :=
  if decide (ne = "pipeline") then Some pk_noise
  else if decide (ne = "diff" \/ ne = "rebin_diff") then Some pk_diff
  else if decide (ne = "mean_diff") then
    Some (replicate (length pk_raw)
            (mean (select pk_diff (k_between 0 (2 # 100) k))))
  else if decide (ne = "mean_rebin_diff") then
    Some (replicate (length pk_raw)
            (mean (select pk_diff (k_between (3 # 1000) (2 # 100) k))))
  else None.

Definition combined (pk_raw noise correction_reso : list F) : list F :=
  zip_with fdiv (zip_with fsub pk_raw noise) correction_reso.

(** All power arrays of a record share one length. *)
Definition aligned (r : PkRecord) : Prop :=
  length (rec_pk_noise r) = length (rec_pk_raw r)
  /\ length (rec_pk_diff r) = length (rec_pk_raw r)
  /\ length (rec_correction_reso r) = length (rec_pk_raw r).

(** The record's final power is the combination of its own columns. *)
Definition pk_is_combined (ne : string) (r : PkRecord) : Prop :=
  exists noise,
    noise_term ne (rec_k r) (rec_pk_raw r) (rec_pk_noise r) (rec_pk_diff r)
      = Some noise
    /\ rec_pk r = combined (rec_pk_raw r) noise (rec_correction_reso r).

(** The same up to the velocity conversion: the wavenumbers [k0] the
    band was selected on are divided by [f], the combination is
    multiplied by [f]. *)
Definition pk_is_rescaled (ne : string) (f : F) (r : PkRecord) : Prop :=
  exists k0 noise,
    rec_k r = map (fun x => x / f)%fl k0
    /\ noise_term ne k0 (rec_pk_raw r) (rec_pk_noise r) (rec_pk_diff r)
         = Some noise
    /\ rec_pk r =
         map (fun x => x * f)%fl
             (combined (rec_pk_raw r) noise (rec_correction_reso r)).

End PowerSpec.

(** ** Selection and segments, as the documentation states them *)

Section SelectionSpec.
Context `{Numeric} `{!Pk1dLib}.






(** Segment [i] of a split, filled: what [fill_masked_pixels] returns
    for it, and its pair (mean redshift, masked-pixel count). *)
Definition part_filled (args : Args) (bin : Binning) (sp : SplitResult)
    (i : nat) : result Filled :=
  '(_, fl) ← fill_part args bin sp i (exposures_diff_array sp); Ok fl.




(** [process_file] from the call of [split_forest] on, for a given
    number of parts. *)
Definition run_parts (args : Args) (bin : Binning) (rng : Rng) (d : Delta)
    (n : Z) : result (option (list PkRecord) * Rng) :=
  let sp := call_split_forest args bin d n in
  st ← part_loop args bin d sp (seq 0 (Z.to_nat n))
         {| st_exposures_diff := exposures_diff_array sp; st_rng := rng;
            st_pk := None; st_pk_list := [] |};
  Ok (Some (st_pk_list st), st_rng st).

(** The five noise-estimate modes. *)
Definition known_mode (ne : string) : Prop :=
  ne = "pipeline" \/ ne = "diff" \/ ne = "rebin_diff"
  \/ ne = "mean_diff" \/ ne = "mean_rebin_diff".

(** The local [pk] is bound only by a combine branch. *)
Definition pk_scoped (ne : string) (st : LoopState) : Prop :=
  known_mode ne \/ st_pk st = None.

Definition forced (args : Args) (bin : Binning) : bool :=
  force_output_in_velocity args && linear_binning bin.

(** The property of an emitted record that the combination step
    establishes. *)
Definition emitted_ok (args : Args) (bin : Binning) (r : PkRecord) : Prop :=
  aligned r ->
  if forced args bin
  then exists lambda_new,
         pk_is_rescaled (noise_estimate args) (velocity_factor lambda_new) r
  else pk_is_combined (noise_estimate args) r.

(** [fill_part] reads position [i] of the four lists and writes at most
    position [i] of the difference list. *)
Definition fill_part_result (args : Args) (bin : Binning) (i : nat)
    (eda : list (list F)) (c dl e iv : list F)
  : list (list F) * Filled :=
  let e' := if is_rebin (noise_estimate args)
            then rebin_diff_noise (delta_lam bin) c e else e in
  (if is_rebin (noise_estimate args) then <[i := e']> eda else eda,
   fill_masked_pixels (delta_lam bin) c dl e' iv (no_apply_filling args)).

(** A later pass sees at its own position what the splitter returned:
    earlier passes wrote only their own positions. *)
Definition untouched_from (start : nat) (eda0 eda : list (list F)) : Prop :=
  forall j, (start <= j)%nat -> eda !! j = eda0 !! j.

(** [--noise-estimate] is declared with [type=str] and no [choices]:
    the parser returns the string as given, or the default. *)
Definition parse_noise_estimate (given : option string) : result string :=
  Ok (default "mean_diff" given).

End SelectionSpec.


(** ** Binning consistency across a run *)

Section BinningSpec.
Context `{Numeric}.

(** The classification of [d] is not the reference one: a different
    boolean, or a bin width that does not compare equal (or no
    classification at all). *)
Definition classification_differs (lin0 : bool) (dl0 : F) (d : Delta)
  : Prop :=
  forall lin2 dl2,
    check_linear_binning d = Ok (lin2, dl2) ->
    lin2 <> lin0 \/ feq dl2 dl0 = false.

(** The error a mismatching first spectrum is reported with: the
    classifier's own when it cannot classify, and otherwise the
    [TypeError] of the handler of the failed assertion. *)
Definition mismatch_error (d : Delta) : exn :=
  match check_linear_binning d with
  | Raise e => e
  | Ok _ => TypeError msg_not_exception
  end.

End BinningSpec.

(** ** A rational model of the numeric interface

    Exact rational arithmetic, every result reduced to lowest terms, so
    that equal numbers are equal terms.  [np.percentile] uses numpy's
    default linear interpolation.  [10**x] is exact at integers and follows
    the chord between neighbouring integers elsewhere; the examples below
    only use integer exponents. *)

Module QModel.

Definition qle (a b : Q) : bool := Qle_bool a b.
Definition qlt (a b : Q) : bool := negb (Qle_bool b a).

Fixpoint insert_sorted (x : Q) (l : list Q) : list Q :=
  match l with
  | [] => [x]
  | y :: l' => if qle x y then x :: l else y :: insert_sorted x l'
  end.

Definition sort (l : list Q) : list Q := foldr insert_sorted [] l.

Definition q_percentile (a : list Q) (q : Q) : Q :=
  let s := sort a in
  let pos := (q / 100 * (inject_Z (Z.of_nat (length s)) - 1))%Q in
  let lo := Qfloor pos in
  let g := (pos - inject_Z lo)%Q in
  let x0 := nth (Z.to_nat lo) s 0%Q in
  let x1 := nth (S (Z.to_nat lo)) s x0 in
  Qred (x0 + g * (x1 - x0)).

Definition q_mean (a : list Q) : Q :=
  Qred (foldr Qplus 0%Q a / inject_Z (Z.of_nat (length a))).

Definition q_median (a : list Q) : Q :=
  let s := sort a in
  let n := length s in
  if Nat.even n
  then Qred ((nth (n / 2 - 1) s 0%Q + nth (n / 2) s 0%Q) / 2)
  else Qred (nth (n / 2) s 0%Q).

Definition q_pow10 (x : Q) : Q :=
  let lo := Qfloor x in
  let g := (x - inject_Z lo)%Q in
  Qred (Qpower 10 lo * (1 + 9 * g)).

#[global] Instance numeric : Numeric := {|
  F := Q;
  fadd a b := Qred (a + b);
  fsub a b := Qred (a - b);
  fmul a b := Qred (a * b);
  fdiv a b := Qred (a / b);
  fneg a := Qred (- a);
  flt := qlt;
  fgt a b := qlt b a;
  fle := qle;
  fge a b := qle b a;
  feq := Qeq_bool;
  lit := Qred;
  pow10 := q_pow10;
  ln10 := (2302585093 # 1000000000)%Q;
  percentile := q_percentile;
  median := q_median;
  mean := q_mean
|}.

(** A small deterministic stand-in for [picca.pk1d], to run the driver
    on examples.  The generator state counts the calls that drew noise.
    All parts have [(len - first) // num_parts] pixels; filling passes
    the arrays through (cut to a common length) and counts the pixels
    with zero ivar. *)

Definition part_slice (l : list Q) (first size i : nat) : list Q :=
  take size (drop (first + i * size) l).

Definition q_split_forest (n : Z) (dl : Q) (coord dlt ed iv : list Q)
    (first : nat) (rm : option (list (list Q))) : SplitResult :=
  let parts := seq 0 (Z.to_nat n) in
  let size := ((length coord - first) / Z.to_nat n)%nat in
  {| mean_z_array :=
       map (fun i => q_mean (part_slice coord first size i)) parts;
     coord_array := map (part_slice coord first size) parts;
     delta_array := map (part_slice dlt first size) parts;
     exposures_diff_array := map (part_slice ed first size) parts;
     ivar_array := map (part_slice iv first size) parts |}.

Definition q_fill_masked_pixels (dl : Q) (coord dlt ed iv : list Q)
    (no_fill : bool) : Filled :=
  let n := Nat.min (Nat.min (length coord) (length dlt))
                   (Nat.min (length ed) (length iv)) in
  {| coord_new := take n coord;
     delta_new := take n dlt;
     exposures_diff_new := take n ed;
     ivar_new := take n iv;
     num_masked_pixels :=
       Z.of_nat (length (filter (fun x => Qeq_bool x 0 = true) (take n iv))) |}.

Definition q_compute_pk_raw (dl : Q) (dlt : list Q) (lin : bool)
  : list Q * list Q :=
  (map (fun i => Qred (inject_Z (Z.of_nat i) * (5 # 1000)))
       (seq 0 (length dlt)),
   map (fun x => Qred (x * x * dl)) dlt).

Definition q_compute_pk_noise (rng : nat) (dl : Q) (iv ed : list Q)
    (run_noise lin : bool) : (list Q * list Q) * nat :=
  ((map (fun v => if run_noise && negb (Qeq_bool v 0)
                  then Qred (dl / v) else 0%Q) iv,
    map (fun i => let e := nth i ed 0%Q in Qred (e * e * dl / 2))
        (seq 0 (length iv))),
   if run_noise then S rng else rng).

Definition q_correction (k : list Q) : list Q :=
  map (fun x => Qred (1 + x * x)) k.

#[global] Instance pk1d : Pk1dLib := {|
  Rng := nat;
  speed_light := 299792458%Q;
  split_forest := q_split_forest;
  rebin_diff_noise := fun _ _ e => e;
  fill_masked_pixels := q_fill_masked_pixels;
  compute_pk_raw := q_compute_pk_raw;
  compute_pk_noise := q_compute_pk_noise;
  compute_correction_reso := fun _ _ k => q_correction k;
  compute_correction_reso_matrix := fun _ k _ _ => q_correction k
|}.

(** Two pixels at 1000 and 10000 Angstrom. *)
Definition two_pixels (snr : Q) (d0 d1 : Q) : Delta :=
  {| mean_snr := snr; mean_reso := 50%Q;
     log_lambda := [3%Q; 4%Q];
     delta := [d0; d1];
     exposures_diff := [0%Q; 0%Q];
     ivar := [1%Q; 1%Q];
     resolution_matrix := None |}.

(** Two pixels at 10000 and 100000 Angstrom. *)
Definition two_pixels_far : Delta :=
  {| mean_snr := 5%Q; mean_reso := 50%Q;
     log_lambda := [4%Q; 5%Q];
     delta := [1%Q; 1%Q];
     exposures_diff := [0%Q; 0%Q];
     ivar := [1%Q; 1%Q];
     resolution_matrix := None |}.

(** The defaults of the argument parser, with the segment sizes scaled
    down to the two-pixel examples. *)
Definition small_args (ne : string) (parts : Z) (force : bool) : Args :=
  {| SNR_min := 2%Q; reso_max := 85%Q; lambda_obs_min := 3600%Q;
     nb_part := parts; nb_pixel_min := 1; nb_pixel_masked_max := 40;
     no_apply_filling := false; noise_estimate := ne;
     disable_reso_matrix := false; force_output_in_velocity := force |}.

Definition linear_9000 : Binning :=
  {| linear_binning := true; delta_lam := 9000%Q;
     reso_correction := Gaussian |}.

(** Three pixels a decade apart: wavelengths handed over as if they were
    log-wavelengths would look like this. *)
Definition three_decades : Delta :=
  {| mean_snr := 5%Q; mean_reso := 50%Q;
     log_lambda := [3%Q; 4%Q; 5%Q];
     delta := [1%Q; 1%Q; 1%Q];
     exposures_diff := [0%Q; 0%Q; 0%Q];
     ivar := [1%Q; 1%Q; 1%Q];
     resolution_matrix := None |}.

(** Four pixels, the third with zero ivar; two parts asked for, none of
    whose pixels may be masked. *)
Definition four_pixels : Delta :=
  {| mean_snr := 5%Q; mean_reso := 50%Q;
     log_lambda := [3%Q; 4%Q; 5%Q; 6%Q];
     delta := [1%Q; 2%Q; 3%Q; 4%Q];
     exposures_diff := [0%Q; 0%Q; 0%Q; 0%Q];
     ivar := [1%Q; 1%Q; 0%Q; 1%Q];
     resolution_matrix := None |}.

Definition strict_args : Args :=
  {| SNR_min := 2%Q; reso_max := 85%Q; lambda_obs_min := 3600%Q;
     nb_part := 2; nb_pixel_min := 1; nb_pixel_masked_max := 0;
     no_apply_filling := false; noise_estimate := "diff";
     disable_reso_matrix := false; force_output_in_velocity := false |}.

(** Rational stand-ins for the special functions of the DLA model (a
    decreasing positive function for [exp] on negative arguments, one
    Newton step for the square root, a Lorentzian for the Voigt
    profile).  No statement below depends on their values. *)
#[global] Instance special : Special := {|
  fexp x := if qle x 0 then Qred (1 / (1 - x)) else Qred (1 + x);
  fsqrt x := Qred ((1 + x) / 2);
  pi := (355 # 113)%Q;
  voigt_profile x sigma gamma :=
    Qred (gamma / ((355 # 113) * (x * x + gamma * gamma)));
  LAMBDA_LYA := (121567 # 100)%Q;
  LAMBDA_LYB := (102572 # 100)%Q
|}.

(** [Forest.mask_fields] of a Pk1D forest, and a forest of three pixels
    with a 2 x 3 resolution matrix. *)
Definition mask_fields : list string :=
  ["flux"; "ivar"; "transmission_correction"; "log_lambda";
   "resolution_matrix"].

Definition forest3 (id : Z) : Forest :=
  {| los_id := id;
     attrs :=
       <["flux" := Arr [1%Q; 2%Q; 3%Q]]>
       (<["ivar" := Arr [4%Q; 5%Q; 6%Q]]>
       (<["transmission_correction" := Arr [1%Q; 1%Q; 1%Q]]>
       (<["log_lambda" := Arr [3%Q; 4%Q; 5%Q]]>
       (<["resolution_matrix" :=
            Arr2 [[1%Q; 2%Q; 3%Q]; [4%Q; 5%Q; 6%Q]]]> ∅)))) |}.

(** A catalogue with one absorber (z = 2.5, log NHI = 20.5) on line of
    sight 7, the options of a [DlaMask] section, and a mask file with
    one rest-frame range. *)
Definition dla_catalogue : list (Z * Q * Q) := [(7, (5 # 2)%Q, (41 # 2)%Q)].

Definition dla_config (mask_file : bool) : gmap string string :=
  let c := <["filename" := "dla.fits.gz"]>
           (<["los_id name" := "THING_ID"]>
           (<["dla mask limit" := "0.8"]> ∅)) in
  if mask_file then <["mask file" := "dla-mask.txt"]> c else c.

(** The records the driver emits on [two_pixels 5 1 2] with the stand-in
    library: mode 'pipeline' without the velocity conversion, and mode
    'diff' with it. *)
Definition pipeline_record : PkRecord :=
  {| rec_k := [0%Q]; rec_pk_raw := [36000%Q]; rec_pk_noise := [9000%Q];
     rec_pk_diff := [0%Q]; rec_correction_reso := [1%Q];
     rec_pk := [27000%Q]; rec_mean_z := 10000%Q;
     rec_num_masked_pixels := 0 |}.

Definition rescaled_record : PkRecord :=
  {| rec_k := [0%Q]; rec_pk_raw := [36000%Q]; rec_pk_noise := [0%Q];
     rec_pk_diff := [0%Q]; rec_correction_reso := [1%Q];
     rec_pk := [(1349066061 # 1250)%Q]; rec_mean_z := 10000%Q;
     rec_num_masked_pixels := 0 |}.

Definition mask_file_rows : list MaskRow :=
  [{| row_type := "DLA"; wave_min := 1200%Q; wave_max := 1230%Q;
      frame := "RF_DLA" |}].

End QModel.

(** ** [DesiData.__parse_config] and [DesiData.__init__] (desi_data.py)

    The section is a finite map from option names to strings.
    [config.get] answers [None] for a missing option;
    [config.getboolean] lower-cases the value and looks it up in
    configparser's table of boolean words, raising [ValueError] for any
    other word.  [ACCEPTED_BLINDING_STRATEGIES] belongs to
    [picca.delta_extraction.utils] and is a parameter. *)

Inductive desi_exn : Type :=
| DataError (msg : string)
| NotABoolean (value : string).

Inductive outcome (A : Type) : Type :=
| Done (a : A)
| Failed (e : desi_exn).

Arguments Done {A} a.
Arguments Failed {A} e.

Definition ascii_lower (c : Ascii.ascii) : Ascii.ascii :=
  let n := Ascii.nat_of_ascii c in
  if (65 <=? n)%nat && (n <=? 90)%nat then Ascii.ascii_of_nat (n + 32)
  else c.

Fixpoint lower (s : string) : string :=
  match s with
  | EmptyString => EmptyString
  | String c s' => String (ascii_lower c) (lower s')
  end.

Definition getboolean (config : gmap string string) (name : string)
  : outcome (option bool) :=
  match config !! name with
  | None => Done None
  | Some value =>
      let v := lower value in
      if bool_decide (v ∈ ["1"; "yes"; "true"; "on"]) then Done (Some true)
      else if bool_decide (v ∈ ["0"; "no"; "false"; "off"])
           then Done (Some false)
      else Failed (NotABoolean value)
  end.

(** [__parse_config]: the values of [self.blinding] and
    [self.use_non_coadded_spectra]. *)
Definition parse_config (accepted : list string)
    (config : gmap string string) : outcome (string * bool) :=
  match config !! "blinding" with
  | None => Failed (DataError "Missing argument 'blinding' required by DesiData")
  | Some blinding =>
      if bool_decide (blinding ∈ accepted) then
        match getboolean config "use non-coadded spectra" with
        | Failed e => Failed e
        | Done None =>
            Failed (DataError
              "Missing argument 'use non-coadded spectra' required by DesiData")
        | Done (Some u) => Done (blinding, u)
        end
      else Failed (DataError "Unrecognized blinding strategy")
  end.

(** [__init__] from [__parse_config] on: [read_data] stands for what the
    method of the class at hand returns (after the catalogue has been
    loaded; in [DesiData] itself it raises, child classes overload it),
    [class_blinding] and [log] for [Forest.blinding] and the logger as
    they were. *)
Definition DesiData_init (accepted : list string)
    (config : gmap string string) (read_data : outcome (bool * bool))
    (class_blinding : option string) (log : list string)
  : outcome BlindingState :=
  match parse_config accepted config with
  | Failed e => Failed e
  | Done (blinding, _) =>
      match read_data with
      | Failed e => Failed e
      | Done (is_mock, is_sv) =>
          Done (set_blinding is_mock is_sv
                  {| self_blinding := blinding;
                     Forest_blinding := class_blinding;
                     warnings := log |})
      end
  end.

(** ** The catalogue of one line of sight, read off the rows *)

Section CatalogueSpec.
Context `{Numeric}.

(** The (z, NHI) pairs of the rows with a given id, in catalogue order:
    [list(zip(cat[z_colname][w], cat['NHI'][w]))] for
    [w = los_id == cat[los_id_name]]. *)
Fixpoint absorbers_of (id : Z) (cat : list (Z * F * F)) : list (F * F) :=
  match cat with
  | [] => []
  | (i, z, nhi) :: rest =>
      if decide (i = id) then (z, nhi) :: absorbers_of id rest
      else absorbers_of id rest
  end.

End CatalogueSpec.

(** ** Further examples in the rational model *)

Module QExamples.

(** Two pixels past the floor, both with zero ivar. *)
Definition all_masked : Delta :=
  {| mean_snr := 5%Q; mean_reso := 50%Q;
     log_lambda := [4%Q; 5%Q];
     delta := [1%Q; 2%Q];
     exposures_diff := [0%Q; 0%Q];
     ivar := [0%Q; 0%Q];
     resolution_matrix := None |}.

(** An unknown noise mode, two parts, no masked pixel allowed. *)
Definition white_args (min_pixels : Z) : Args :=
  {| SNR_min := 2%Q; reso_max := 85%Q; lambda_obs_min := 3600%Q;
     nb_part := 2; nb_pixel_min := min_pixels; nb_pixel_masked_max := 0;
     no_apply_filling := false; noise_estimate := "white";
     disable_reso_matrix := false; force_output_in_velocity := false |}.

(** Mode 'diff' with the number of parts and the minimum segment size
    given. *)
Definition diff_args (parts min_pixels : Z) : Args :=
  {| SNR_min := 2%Q; reso_max := 85%Q; lambda_obs_min := 3600%Q;
     nb_part := parts; nb_pixel_min := min_pixels; nb_pixel_masked_max := 40;
     no_apply_filling := false; noise_estimate := "diff";
     disable_reso_matrix := false; force_output_in_velocity := false |}.

(** Two pixels at 100 and 1000 Angstrom, both below the floor. *)
Definition below_floor : Delta :=
  {| mean_snr := 5%Q; mean_reso := 50%Q;
     log_lambda := [2%Q; 3%Q];
     delta := [1%Q; 2%Q];
     exposures_diff := [0%Q; 0%Q];
     ivar := [1%Q; 1%Q];
     resolution_matrix := None |}.

(** Six pixels a decade apart, the first one below the floor. *)
Definition six_pixels : Delta :=
  {| mean_snr := 5%Q; mean_reso := 50%Q;
     log_lambda := [3%Q; 4%Q; 5%Q; 6%Q; 7%Q; 8%Q];
     delta := [1%Q; 2%Q; 3%Q; 4%Q; 5%Q; 6%Q];
     exposures_diff := [0%Q; 0%Q; 0%Q; 0%Q; 0%Q; 0%Q];
     ivar := [1%Q; 1%Q; 1%Q; 1%Q; 1%Q; 1%Q];
     resolution_matrix := None |}.


(** Two pixels at 1000 and 10000 Angstrom whose mean SNR is below the
    floor. *)
Definition low_snr : Delta := QModel.two_pixels 1 1 2.

Definition desi_config (blinding flag : string) : gmap string string :=
  <["blinding" := blinding]> (<["use non-coadded spectra" := flag]> ∅).

Definition accepted_strategies : list string :=
  ["none"; "corr_yshift"].

(** A catalogue with two absorbers on line of sight 7 and one on 9. *)
Definition catalogue3 : list (Z * Q * Q) :=
  [(7, (5 # 2)%Q, (41 # 2)%Q); (9, 3%Q, 21%Q); (7, (27 # 10)%Q, 20%Q)].

Definition four_fields : list string :=
  ["flux"; "ivar"; "transmission_correction"; "log_lambda"].

End QExamples.

(** * Theorems *)

Section BinningFacts.
Context `{Numeric}.

(** C2. On a coordinate array of length at least 2 the classifier
    answers (linear, median linear difference) when the 25th-minus-5th
    percentile gap of the linear differences is below 1e-6; otherwise
    (log, median log difference) when the gap of the log differences is
    below 1e-6 and their 5th percentile is below 0.01; otherwise it
    raises [ValueError], with the lambda-passed-as-log-lambda message
    exactly when that 5th percentile is >= 0.01 and with the
    cannot-classify message in the remaining case. *)
Theorem check_linear_binning_cases (delta : Delta) :
  (2 <= length (log_lambda delta))%nat ->
  let x := log_lambda delta in
  let q5 := percentile (log_diffs x) 5 in
  let is_log := small_gap (log_diffs x) && flt q5 (lit (1 # 100)) in
  (small_gap (lin_diffs x) = true ->
     check_linear_binning delta = Ok (true, median (lin_diffs x)))
  /\ (small_gap (lin_diffs x) = false -> is_log = true ->
     check_linear_binning delta = Ok (false, median (log_diffs x)))
  /\ (small_gap (lin_diffs x) = false -> is_log = false ->
     (fge q5 (lit (1 # 100)) = true ->
        check_linear_binning delta = Raise (ValueError msg_lambda_as_log))
     /\ (fge q5 (lit (1 # 100)) = false ->
        check_linear_binning delta = Raise (ValueError msg_unclassified))).
Proof.
  intros Hlen x q5 is_log. subst x q5 is_log.
  unfold check_linear_binning, small_gap, gap, lin_diffs, log_diffs.
  destruct (decide (length (np_diff (map pow10 (log_lambda delta))) = 0%nat))
    as [Hempty|_].
  { destruct (log_lambda delta) as [|a [|b l]]; simpl in *; [lia|lia|].
    discriminate Hempty. }
  repeat split; intros;
    repeat match goal with
           | Hx : _ = _ |- _ => rewrite Hx
           end; reflexivity.
Qed.

End BinningFacts.

(** C10. After [set_blinding], [Forest.blinding] is 'none' when
    [is_mock] or [is_sv] holds and 'corr_yshift' otherwise, whatever
    blinding was configured; the configured value decides only whether a
    warning is logged (exactly when it differs from the engaged one). *)
Theorem set_blinding_forced (is_mock is_sv : bool) (s : BlindingState) :
  let s' := set_blinding is_mock is_sv s in
  let target := blinding_target is_mock is_sv in
  Forest_blinding s' = Some target
  /\ self_blinding s' = target
  /\ warnings s' =
       if decide (self_blinding s = target) then warnings s
       else (warnings s ++
             [blinding_warning (self_blinding s)
                (blinding_reason is_mock is_sv) target])%list.
Proof.
  unfold set_blinding, blinding_target, blinding_override.
  destruct is_mock, is_sv; simpl;
    case_decide; simpl; repeat split; congruence.
Qed.

(** ** The result monad *)

Lemma bind_Ok {A B} (m : result A) (f : A -> result B) (b : B) :
  m ≫= f = Ok b -> exists a, m = Ok a /\ f a = Ok b.
Proof. destruct m as [a|e]; simpl; [eauto | discriminate]. Qed.

Lemma bind_Raise {A B} (m : result A) (f : A -> result B) (e : exn) :
  m = Raise e -> m ≫= f = Raise e.
Proof. intros ->. reflexivity. Qed.

Tactic Notation "inv_bind" hyp(H) "as" ident(a) ident(Ha) :=
  apply bind_Ok in H as (a & Ha & H).

Ltac inv_ok :=
  repeat match goal with
         | Hx : Ok _ = Ok _ |- _ => injection Hx as Hx; subst
         | Hx : Raise _ = Ok _ |- _ => discriminate Hx
         | Hx : (_, _) = (_, _) |- _ => injection Hx as Hx; subst
         | Hx : Some _ = Some _ |- _ => injection Hx as Hx; subst
         end.

Section ArrayFacts.
Context `{Numeric}.

Lemma broadcast2_same op (a b : list F) :
  length a = length b -> broadcast2 op a b = Ok (zip_with op a b).
Proof. intros E. unfold broadcast2. case_decide; [reflexivity | contradiction]. Qed.

Lemma zip_with_replicate_r (op : F -> F -> F) (a : list F) (y : F) :
  zip_with op a (replicate (length a) y) = map (fun x => op x y) a.
Proof. induction a as [|x a IH]; simpl; [reflexivity | by rewrite IH]. Qed.

Lemma band_between lo hi (k : list F) :
  band (map (fun x => fgt x (lit lo)) k) (map (fun x => flt x (lit hi)) k)
  = k_between lo hi k.
Proof.
  unfold band, k_between.
  induction k as [|x k IH]; simpl; [reflexivity | by rewrite IH].
Qed.

Lemma bool_index_Ok {A} (a : list A) w a' :
  bool_index a w = Ok a' -> a' = select a w.
Proof. unfold bool_index. case_decide; intros; inv_ok; reflexivity. Qed.

End ArrayFacts.

Section Pk1DFacts.
Context `{Numeric} `{!Pk1dLib}.

(** What [compute_pk] leaves in [pk] when it assigns it. *)
Lemma compute_pk_combined ne k raw noise diff corr pk0 pk :
  length noise = length raw -> length diff = length raw ->
  length corr = length raw ->
  compute_pk ne k raw noise diff corr pk0 = Ok pk ->
  (exists nz p, noise_term ne k raw noise diff = Some nz
                /\ pk = Some p /\ p = combined raw nz corr)
  \/ (noise_term ne k raw noise diff = None /\ pk = pk0).
Proof.
  intros En Ed Ec. unfold compute_pk, noise_term, low_k_band, combined.
  rewrite !band_between.
  repeat case_decide; try (exfalso; intuition congruence); intros Hc.
  - repeat (rewrite broadcast2_same in Hc
              by (rewrite ?length_zip_with; lia); simpl in Hc).
    inv_ok. left. eauto.
  - repeat (rewrite broadcast2_same in Hc
              by (rewrite ?length_zip_with; lia); simpl in Hc).
    inv_ok. left. eauto.
  - inv_bind Hc as a Ha. apply bool_index_Ok in Ha. subst a.
    rewrite broadcast2_same in Hc by (rewrite length_map; lia).
    simpl in Hc. inv_ok. left. eexists _, _. split; [reflexivity|].
    split; [reflexivity|]. by rewrite zip_with_replicate_r.
  - inv_bind Hc as a Ha. apply bool_index_Ok in Ha. subst a.
    rewrite broadcast2_same in Hc by (rewrite length_map; lia).
    simpl in Hc. inv_ok. left. eexists _, _. split; [reflexivity|].
    split; [reflexivity|]. by rewrite zip_with_replicate_r.
  - inv_ok. right. done.
Qed.

Lemma noise_term_known ne k raw noise diff :
  known_mode ne <-> is_Some (noise_term ne k raw noise diff).
Proof.
  unfold known_mode, noise_term.
  repeat case_decide; split; intros Hx;
    try (eexists; reflexivity); try tauto;
    destruct Hx as [? Hx]; discriminate Hx.
Qed.

Lemma emit_part_record args bin d sp i fl st st' :
  pk_scoped (noise_estimate args) st ->
  emit_part args bin d sp i fl st = Ok st' ->
  known_mode (noise_estimate args)
  /\ st_exposures_diff st' = st_exposures_diff st
  /\ exists r,
       st_pk_list st' = (st_pk_list st ++ [r])%list
       /\ rec_num_masked_pixels r = num_masked_pixels fl
       /\ mean_z_array sp !! i = Some (rec_mean_z r)
       /\ emitted_ok args bin r.
Proof.
  intros Hsc. unfold emit_part, emitted_ok, forced.
  destruct (compute_pk_raw _ _ _) as [k raw].
  destruct (compute_pk_noise _ _ _ _ _ _) as [[noise diff] rng'].
  set (corr := resolution_correction bin d k (coord_new fl)).
  intros He. inv_bind He as pk Hpk. inv_bind He as kp Hkp.
  destruct kp as [k' pk']. inv_bind He as p Hp. inv_bind He as mz Hmz.
  inv_ok. simpl.
  assert (Hmz' : mean_z_array sp !! i = Some mz).
  { unfold index in Hmz. destruct (mean_z_array sp !! i); inv_ok; done. }
  assert (Hkn : known_mode (noise_estimate args)).
  { destruct Hsc as [Hk|Hn]; [done|].
    destruct (decide (known_mode (noise_estimate args))) as [|Hu]; [done|].
    exfalso. unfold compute_pk in Hpk. unfold known_mode in Hu.
    repeat case_decide; try tauto. inv_ok. rewrite Hn in *.
    destruct (force_output_in_velocity args && linear_binning bin);
      simpl in *; inv_ok; discriminate. }
  split; [done|]. split; [done|].
  eexists. split; [reflexivity|]. simpl.
  split; [done|]. split; [done|].
  intros (En & Ed & Ec). simpl in *.
  destruct (compute_pk_combined _ _ _ _ _ _ _ _ En Ed Ec Hpk)
    as [(nz & p' & Hnz & -> & ->)|[Hnone _]].
  2:{ apply (noise_term_known _ k raw noise diff) in Hkn.
      rewrite Hnone in Hkn. by destruct Hkn. }
  unfold read_local in *.
  destruct (force_output_in_velocity args && linear_binning bin);
    simpl in *; inv_ok.
  - exists (coord_new fl). exists k, nz. simpl. done.
  - exists nz. simpl. done.
Qed.

Lemma part_step_cases args bin d sp i st st' :
  part_step args bin d sp i st = Ok st' ->
  exists eda fl,
    fill_part args bin sp i (st_exposures_diff st) = Ok (eda, fl)
    /\ let st1 := {| st_exposures_diff := eda; st_rng := st_rng st;
                     st_pk := st_pk st; st_pk_list := st_pk_list st |} in
       if decide (num_masked_pixels fl > nb_pixel_masked_max args)
       then st' = st1
       else emit_part args bin d sp i fl st1 = Ok st'.
Proof.
  unfold part_step. intros Hs. inv_bind Hs as a Ha. destruct a as [eda fl].
  exists eda, fl. split; [done|]. simpl. case_decide; inv_ok; done.
Qed.

Lemma part_loop_Forall args bin d sp (P : PkRecord -> Prop) :
  (forall i fl st st',
      pk_scoped (noise_estimate args) st ->
      emit_part args bin d sp i fl st = Ok st' ->
      exists r, st_pk_list st' = (st_pk_list st ++ [r])%list /\ P r) ->
  forall parts st st',
    pk_scoped (noise_estimate args) st ->
    Forall P (st_pk_list st) ->
    part_loop args bin d sp parts st = Ok st' ->
    Forall P (st_pk_list st').
Proof.
  intros Hemit parts.
  induction parts as [|i parts IH]; intros st st' Hsc HP Hl; simpl in Hl.
  - by inv_ok.
  - inv_bind Hl as a Ha.
    destruct (part_step_cases _ _ _ _ _ _ _ Ha) as (eda & fl & _ & Hc).
    simpl in Hc. case_decide.
    + subst a. eapply IH; [ | | exact Hl]; [exact Hsc | exact HP].
    + assert (Hsc1 : pk_scoped (noise_estimate args)
                {| st_exposures_diff := eda; st_rng := st_rng st;
                   st_pk := st_pk st; st_pk_list := st_pk_list st |})
        by exact Hsc.
      destruct (Hemit _ _ _ _ Hsc1 Hc) as (r & El & Hr).
      destruct (emit_part_record _ _ _ _ _ _ _ _ Hsc1 Hc) as (Hk & _).
      apply (IH a st'); [by left | | done].
      rewrite El. simpl. apply Forall_app. split; [done | by constructor].
Qed.

Lemma index_Ok {A} (l : list A) i x : index l i = Ok x <-> l !! i = Some x.
Proof.
  unfold index. destruct (l !! i); split; intros Hx; inv_ok; done.
Qed.

Lemma fill_part_Some args bin sp i eda c dl e iv :
  coord_array sp !! i = Some c -> delta_array sp !! i = Some dl ->
  eda !! i = Some e -> ivar_array sp !! i = Some iv ->
  fill_part args bin sp i eda = Ok (fill_part_result args bin i eda c dl e iv).
Proof.
  intros Hc Hd He Hi. unfold fill_part, fill_part_result.
  apply index_Ok in Hc, Hd, Hi. rewrite Hc, Hd, Hi.
  destruct (is_rebin (noise_estimate args)); simpl.
  - apply lookup_lt_Some in He as Hlt. apply index_Ok in He. rewrite He.
    simpl. unfold index at 1. rewrite list_lookup_insert_eq by done.
    reflexivity.
  - apply index_Ok in He. rewrite He. reflexivity.
Qed.

Lemma fill_part_Ok args bin sp i eda r :
  fill_part args bin sp i eda = Ok r ->
  exists c dl e iv,
    coord_array sp !! i = Some c /\ delta_array sp !! i = Some dl
    /\ eda !! i = Some e /\ ivar_array sp !! i = Some iv
    /\ r = fill_part_result args bin i eda c dl e iv.
Proof.
  intros Hf. pose proof Hf as Hf0. unfold fill_part in Hf.
  inv_bind Hf as eda' Heda. inv_bind Hf as c Hc. inv_bind Hf as dl Hd.
  inv_bind Hf as e' He'. inv_bind Hf as iv Hi.
  apply index_Ok in Hc, Hd, Hi, He'.
  assert (exists e, eda !! i = Some e) as [e He].
  { destruct (is_rebin (noise_estimate args)).
    - inv_bind Heda as c0 Hc0. inv_bind Heda as e He.
      apply index_Ok in He. eauto.
    - inv_ok. eauto. }
  rewrite (fill_part_Some _ _ _ _ _ _ _ _ _ Hc Hd He Hi) in Hf0.
  inv_ok. eauto 10.
Qed.

Lemma part_filled_Ok args bin sp i fl :
  part_filled args bin sp i = Ok fl <->
  exists c dl e iv,
    coord_array sp !! i = Some c /\ delta_array sp !! i = Some dl
    /\ exposures_diff_array sp !! i = Some e /\ ivar_array sp !! i = Some iv
    /\ fl = (fill_part_result args bin i (exposures_diff_array sp) c dl e iv).2.
Proof.
  unfold part_filled. split.
  - intros Hp. inv_bind Hp as r Hr. destruct r as [eda fl']. inv_ok.
    apply fill_part_Ok in Hr as (c & dl & e & iv & Hc & Hd & He & Hi & Hr).
    exists c, dl, e, iv. by rewrite <- Hr.
  - intros (c & dl & e & iv & Hc & Hd & He & Hi & ->).
    by rewrite (fill_part_Some _ _ _ _ _ _ _ _ _ Hc Hd He Hi).
Qed.

Lemma fill_part_untouched args bin sp i eda fl :
  untouched_from i (exposures_diff_array sp) eda ->
  part_filled args bin sp i = Ok fl ->
  exists eda',
    fill_part args bin sp i eda = Ok (eda', fl)
    /\ untouched_from (S i) (exposures_diff_array sp) eda'.
Proof.
  intros Hu Hp.
  apply part_filled_Ok in Hp as (c & dl & e & iv & Hc & Hd & He & Hi & ->).
  rewrite <- (Hu i) in He by done.
  rewrite (fill_part_Some _ _ _ _ _ _ _ _ _ Hc Hd He Hi).
  unfold fill_part_result. simpl. eexists. split; [reflexivity|].
  intros j Hj. destruct (is_rebin _).
  - rewrite list_lookup_insert_ne by lia. apply Hu. lia.
  - apply Hu. lia.
Qed.

Lemma part_filled_earlier args bin sp i j fl :
  (j <= i)%nat -> part_filled args bin sp i = Ok fl ->
  exists fl', part_filled args bin sp j = Ok fl'.
Proof.
  intros Hj Hp.
  apply part_filled_Ok in Hp as (c & dl & e & iv & Hc & Hd & He & Hi & _).
  apply lookup_lt_Some in Hc, Hd, He, Hi.
  destruct (lookup_lt_is_Some_2 (coord_array sp) j) as [c' Hc']; [lia|].
  destruct (lookup_lt_is_Some_2 (delta_array sp) j) as [d' Hd']; [lia|].
  destruct (lookup_lt_is_Some_2 (exposures_diff_array sp) j) as [e' He']; [lia|].
  destruct (lookup_lt_is_Some_2 (ivar_array sp) j) as [i' Hi']; [lia|].
  eexists. apply part_filled_Ok. eauto 10.
Qed.

Lemma emit_part_unbound args bin d sp i fl st :
  ~ known_mode (noise_estimate args) -> st_pk st = None ->
  emit_part args bin d sp i fl st = Raise (UnboundLocalError "pk").
Proof.
  intros Hu Hn. unfold emit_part, known_mode in *.
  destruct (compute_pk_raw _ _ _) as [k raw].
  destruct (compute_pk_noise _ _ _ _ _ _) as [[noise diff] rng'].
  unfold compute_pk. repeat case_decide; try tauto.
  rewrite Hn. simpl.
  destruct (force_output_in_velocity args && linear_binning bin); reflexivity.
Qed.

Lemma part_loop_unbound args bin d sp :
  ~ known_mode (noise_estimate args) ->
  forall len start st,
    st_pk st = None ->
    untouched_from start (exposures_diff_array sp) (st_exposures_diff st) ->
    (exists i fl, (start <= i < start + len)%nat
                  /\ part_filled args bin sp i = Ok fl
                  /\ ~ num_masked_pixels fl > nb_pixel_masked_max args) ->
    part_loop args bin d sp (seq start len) st
    = Raise (UnboundLocalError "pk").
Proof.
  intros Hu len.
  induction len as [|len IH]; intros start st Hn Hun (i & fl & Hi & Hp & Hk).
  - lia.
  - simpl. unfold part_step.
    destruct (part_filled_earlier args bin sp i start fl) as [fl0 Hp0];
      [lia|done|].
    destruct (fill_part_untouched args bin sp _ _ _ Hun Hp0)
      as (eda' & Hf & Hun').
    rewrite Hf. simpl. case_decide as Hm.
    + simpl. apply IH; [done|done|].
      exists i, fl. split; [|done].
      destruct (decide (i = start)) as [->|]; [|lia].
      rewrite Hp in Hp0. inv_ok. contradiction.
    + rewrite emit_part_unbound by done. reflexivity.
Qed.

Lemma process_file_accepted args bin rng d :
  snr_reso_cut args d = false ->
  ~ pixels_left args d < nb_pixel_min args ->
  process_file args bin rng d
  = num_parts args d ≫= run_parts args bin rng d.
Proof.
  intros Hc Hp. unfold process_file, run_parts. rewrite Hc.
  case_decide; [contradiction | reflexivity].
Qed.

Lemma process_file_Some args bin rng d recs rng' :
  process_file args bin rng d = Ok (Some recs, rng') ->
  exists n st,
    num_parts args d = Ok n
    /\ part_loop args bin d (call_split_forest args bin d n)
         (seq 0 (Z.to_nat n))
         {| st_exposures_diff :=
              exposures_diff_array (call_split_forest args bin d n);
            st_rng := rng; st_pk := None; st_pk_list := [] |} = Ok st
    /\ recs = st_pk_list st.
Proof.
  unfold process_file. destruct (snr_reso_cut args d); [discriminate|].
  case_decide; [discriminate|]. intros Hp.
  inv_bind Hp as n Hn. inv_bind Hp as st Hst. inv_ok. eauto.
Qed.

Lemma process_file_emitted args bin rng d recs rng' :
  process_file args bin rng d = Ok (Some recs, rng') ->
  Forall (emitted_ok args bin) recs.
Proof.
  intros Hp. apply process_file_Some in Hp as (n & st & _ & Hl & ->).
  eapply part_loop_Forall; [ | | | exact Hl].
  - intros i fl st0 st' Hsc He.
    destruct (emit_part_record _ _ _ _ _ _ _ _ Hsc He)
      as (_ & _ & r & El & _ & _ & Hr).
    eauto.
  - by right.
  - constructor.
Qed.

(** ** The first selected pixel on an increasing grid *)





End Pk1DFacts.

Section Pk1DTotal.
Context `{Numeric} `{!Pk1dLib} `{!Pk1dContract}.






End Pk1DTotal.

(** ** The claims about [process_file] *)

Section Pk1DClaims.
Context `{Numeric} `{!Pk1dLib}.

(** Whenever the velocity conversion does not apply
    (force_output_in_velocity unset, or log binning), the records are
    emitted with the final power equal to
    (pk_raw - noise_term) / correction_reso elementwise, with the noise
    term of the five modes. *)
Lemma final_power_combination args bin rng d recs rng' :
  process_file args bin rng d = Ok (Some recs, rng') ->
  forced args bin = false ->
  Forall (fun r => aligned r -> pk_is_combined (noise_estimate args) r) recs.
Proof.
  intros Hp Hf. apply process_file_emitted in Hp.
  unfold emitted_ok in Hp. rewrite Hf in Hp. exact Hp.
Qed.

(** C5 (as amended). For every spectrum that passes the selection cuts,
    with nb_pixel_min non-zero, the number of segments asked of the
    forest splitter is
    min(nb_part, (total_pixels - first_pixel_index) // nb_pixel_min), and
    it is at least 1 when nb_part >= 1 and nb_pixel_min >= 1.  With
    nb_pixel_min = 0 the quotient is a division by zero: the number asked
    for is min(nb_part, 0) when some pixel lies past the floor, and
    ZeroDivisionError is raised when none does. *)
Theorem segments_requested args bin rng d :
  snr_reso_cut args d = false ->
  ~ pixels_left args d < nb_pixel_min args ->
  (nb_pixel_min args <> 0 ->
     let n := Z.min (nb_part args) (pixels_left args d / nb_pixel_min args) in
     num_parts args d = Ok n
     /\ process_file args bin rng d = run_parts args bin rng d n
     /\ (1 <= nb_part args -> 1 <= nb_pixel_min args -> 1 <= n))
  /\ (nb_pixel_min args = 0 ->
     num_parts args d =
       if np_any (selected_pixels args d)
       then Ok (Z.min (nb_part args) 0)
       else Raise ZeroDivisionError).
Proof.
  intros Hc Hp. split.
  - intros Hm n.
    assert (En : num_parts args d = Ok n).
    { unfold num_parts, max_num_parts.
      case_decide; [contradiction | reflexivity]. }
    split; [exact En|]. split.
    + rewrite process_file_accepted by done. by rewrite En.
    + intros Hn Hm1. subst n. apply Z.min_glb; [done|].
      apply Z.div_le_lower_bound; lia.
  - intros Hm. unfold num_parts, max_num_parts.
    rewrite decide_True by done.
    by destruct (np_any (selected_pixels args d)).
Qed.

(** C9. A noise-estimate string outside the five modes is accepted by
    the argument parser; for a spectrum that passes the cuts and has a
    segment passing the masked-pixel cut, [process_file] then raises
    UnboundLocalError for [pk], which no combine branch has bound. *)
Theorem unknown_noise_estimate_unbound args bin rng d n :
  ~ known_mode (noise_estimate args) ->
  snr_reso_cut args d = false ->
  ~ pixels_left args d < nb_pixel_min args ->
  num_parts args d = Ok n ->
  (exists i fl,
      (i < Z.to_nat n)%nat
      /\ part_filled args bin (call_split_forest args bin d n) i = Ok fl
      /\ ~ num_masked_pixels fl > nb_pixel_masked_max args) ->
  parse_noise_estimate (Some (noise_estimate args))
    = Ok (noise_estimate args)
  /\ process_file args bin rng d = Raise (UnboundLocalError "pk").
Proof.
  intros Hu Hc Hp Hn (i & fl & Hi & Hf & Hk). split; [reflexivity|].
  rewrite process_file_accepted by done. rewrite Hn. simpl.
  unfold run_parts.
  rewrite (part_loop_unbound args bin d _ Hu); [reflexivity|done| |].
  - intros j _. reflexivity.
  - exists i, fl. split; [lia | done].
Qed.


End Pk1DClaims.

(** ** The claims about [main] *)

Section MainClaims.
Context `{Numeric} `{!Pk1dLib}.

Lemma raises_bind {A B} (m : result A) (f : A -> result B) :
  raises m -> raises (m ≫= f).
Proof. intros [e ->]. by exists e. Qed.

Lemma later_file_check_differs bin d :
  classification_differs (linear_binning bin) (delta_lam bin) d ->
  raises (later_file_check bin d).
Proof.
  intros Hd. unfold later_file_check.
  destruct (check_linear_binning d) as [[lin2 dl2]|e] eqn:Hc;
    simpl; [|by exists e].
  destruct (Hd lin2 dl2 Hc) as [Hl|Hw].
  - rewrite bool_decide_eq_false_2 by done. simpl. by eexists.
  - rewrite Hw, andb_false_r. by eexists.
Qed.

(** After the first file, a step keeps the binning it found. *)
Lemma file_step_keeps args idx deltas st st' bin :
  idx <> 0%nat -> m_binning st = Some bin ->
  file_step args idx deltas st = Ok st' -> m_binning st' = Some bin.
Proof.
  intros Hi Hb. unfold file_step. intros Hs.
  inv_bind Hs as d0 Hd0. case_decide; [contradiction|].
  inv_bind Hs as bin' Hbin. rewrite Hb in Hbin. simpl in Hbin.
  inv_bind Hbin as u Hu. inv_ok.
  inv_bind Hs as r Hr. destruct r as [out rng']. by inv_ok.
Qed.

Lemma file_loop_mismatch args bin :
  forall files idx st i fi di,
    idx <> 0%nat -> m_binning st = Some bin ->
    files !! i = Some fi -> fi !! 0%nat = Some di ->
    classification_differs (linear_binning bin) (delta_lam bin) di ->
    raises (file_loop args idx files st).
Proof.
  induction files as [|f files IH]; intros idx st i fi di Hi Hb Hf Hd Hdiff.
  - by rewrite lookup_nil in Hf.
  - simpl. destruct i as [|i]; simpl in Hf.
    + inv_ok. apply raises_bind. unfold file_step.
      apply index_Ok in Hd. rewrite Hd. simpl.
      case_decide; [contradiction|]. rewrite Hb. simpl.
      apply raises_bind, raises_bind.
      by apply later_file_check_differs.
    + destruct (file_step args idx f st) as [st'|e] eqn:Hs;
        [|by exists e].
      simpl. apply (IH (S idx) st' i fi di); [lia| |done..].
      by eapply file_step_keeps.
Qed.

(** The error of the check is decided by the first spectrum alone. *)
Lemma later_file_check_error bin d :
  classification_differs (linear_binning bin) (delta_lam bin) d ->
  later_file_check bin d = Raise (mismatch_error d).
Proof.
  intros Hd. unfold later_file_check, mismatch_error.
  destruct (check_linear_binning d) as [[lin2 dl2]|e] eqn:Hc;
    simpl; [|reflexivity].
  destruct (Hd lin2 dl2 Hc) as [Hl|Hw].
  - by rewrite bool_decide_eq_false_2 by done.
  - by rewrite Hw, andb_false_r.
Qed.

Lemma file_loop_keeps args bin :
  forall files idx st st',
    idx <> 0%nat -> m_binning st = Some bin ->
    file_loop args idx files st = Ok st' -> m_binning st' = Some bin.
Proof.
  induction files as [|f files IH]; intros idx st st' Hi Hb Hl; simpl in Hl.
  - by inv_ok.
  - inv_bind Hl as st1 Hs. apply (IH (S idx) st1 st'); [lia| |done].
    by eapply file_step_keeps.
Qed.

Lemma file_loop_app args files more :
  forall idx st,
    file_loop args idx (files ++ more) st
    = file_loop args idx files st
        ≫= file_loop args (idx + length files) more.
Proof.
  induction files as [|f files IH]; intros idx st; simpl.
  - by rewrite Nat.add_0_r.
  - destruct (file_step args idx f st) as [st'|e]; simpl; [|reflexivity].
    rewrite IH. by replace (S idx + length files)%nat
                     with (idx + S (length files))%nat by lia.
Qed.

(** C3 (as amended). Once the first spectrum of the first file has been
    classified, every later input file whose first spectrum is
    classified differently, in the linear/log boolean or in the exact
    bin width, makes the run end in a raised error: the mismatch is
    neither skipped nor retried.  The failure is immediate: when the
    files before it were processed normally, the step of the mismatching
    file raises the error of its check, which its first spectrum alone
    decides, before any of its spectra is processed, and this is the
    error the run ends with.  (Only the first spectrum of each file is
    examined.) *)
Theorem binning_mismatch_aborts args rng f0 d0 lin0 dl0 rest i fi di :
  f0 !! 0%nat = Some d0 ->
  check_linear_binning d0 = Ok (lin0, dl0) ->
  rest !! i = Some fi -> fi !! 0%nat = Some di ->
  classification_differs lin0 dl0 di ->
  raises (main args rng (f0 :: rest))
  /\ forall st,
      file_loop args 0 (f0 :: take i rest)
        {| m_binning := None; m_rng := rng; m_written := [] |} = Ok st ->
      file_step args (S i) fi st = Raise (mismatch_error di)
      /\ main args rng (f0 :: rest) = Raise (mismatch_error di).
Proof.
  intros Hd0 Hc0 Hfi Hdi Hdiff.
  set (bin0 := {| linear_binning := lin0; delta_lam := dl0;
                  reso_correction :=
                    if lin0 then
                      if disable_reso_matrix args
                         || bool_decide (resolution_matrix d0 = None)
                      then Gaussian else matrix
                    else Gaussian |}).
  assert (Hfirst : forall st1,
            file_step args 0 f0
              {| m_binning := None; m_rng := rng; m_written := [] |} = Ok st1 ->
            m_binning st1 = Some bin0).
  { intros st1 Hs. unfold file_step in Hs.
    apply index_Ok in Hd0. rewrite Hd0 in Hs.
    simpl in Hs. unfold first_file_binning in Hs. rewrite Hc0 in Hs.
    simpl in Hs. inv_bind Hs as r Hr. destruct r as [out rng']. by inv_ok. }
  split.
  - unfold main. apply raises_bind. simpl.
    destruct (file_step args 0 f0 _) as [st'|e] eqn:Hs; [|by exists e].
    simpl.
    apply (file_loop_mismatch args bin0 rest 1%nat st' i fi di);
      [lia| |done..].
    by apply Hfirst.
  - intros st Hst.
    assert (Hb : m_binning st = Some bin0).
    { simpl in Hst. inv_bind Hst as st1 Hs.
      apply (file_loop_keeps args bin0 (take i rest) 1%nat st1 st);
        [lia| |done].
      by apply Hfirst. }
    assert (Hstep : file_step args (S i) fi st = Raise (mismatch_error di)).
    { unfold file_step. apply index_Ok in Hdi. rewrite Hdi. simpl.
      rewrite Hb. simpl.
      by rewrite (later_file_check_error bin0 di Hdiff). }
    split; [exact Hstep|].
    unfold main.
    rewrite <- (take_drop_middle rest i fi Hfi).
    change (f0 :: take i rest ++ fi :: drop (S i) rest)
      with ((f0 :: take i rest) ++ fi :: drop (S i) rest).
    rewrite file_loop_app.
    rewrite Hst. simpl.
    rewrite length_take, Nat.min_l by (apply lookup_lt_Some in Hfi; lia).
    by rewrite Hstep.
Qed.

End MainClaims.

(** ** The claims about masks *)

Section MaskFacts.
Context `{Numeric}.

Lemma select_length {A} (a : list A) (w : list bool) :
  length a = length w ->
  (length (select a w) + num_masked w)%nat = length a.
Proof.
  revert w. induction a as [|x a IH]; intros [|b w] E; simpl in *;
    try discriminate; [reflexivity|].
  injection E as E. specialize (IH w E). destruct b; simpl; lia.
Qed.

Lemma zero_where_not_length (a : list F) w :
  length (zero_where_not a w) = length a.
Proof.
  revert w. induction a as [|x a IH]; intros [|b w]; simpl; try done.
  by rewrite IH.
Qed.

Lemma zero_where_not_lookup (a : list F) w i :
  length a = length w ->
  zero_where_not a w !! i
  = match w !! i with
    | Some true => a !! i
    | Some false => Some (lit 0)
    | None => None
    end.
Proof.
  revert w i. induction a as [|x a IH]; intros [|b w] i E; simpl in *;
    try discriminate.
  - by rewrite lookup_nil.
  - injection E as E. destruct i as [|i]; simpl; [by destruct b|].
    by apply IH.
Qed.

(** The loop with [_set_ivar_to_zero] touches [ivar] only. *)
Lemma loop_set_ivar_absent fields forest w :
  "ivar" ∉ fields ->
  mask_fields_loop set_ivar_to_zero fields forest w = Ok forest.
Proof.
  induction fields as [|p fields IH]; intros Hn; simpl; [reflexivity|].
  apply not_elem_of_cons in Hn as [Hp Hn].
  unfold _set_ivar_to_zero. case_decide; [congruence|]. simpl. by apply IH.
Qed.

Lemma loop_set_ivar fields forest w :
  NoDup fields -> "ivar" ∈ fields ->
  mask_fields_loop set_ivar_to_zero fields forest w
  = _set_ivar_to_zero forest "ivar" w.
Proof.
  induction fields as [|p fields IH]; intros Hnd Hin.
  - by apply elem_of_nil in Hin.
  - apply NoDup_cons in Hnd as [Hp Hnd]. simpl.
    destruct (decide (p = "ivar")) as [->|Hne].
    + destruct (_set_ivar_to_zero forest "ivar" w) as [f'|e]; simpl;
        [|reflexivity].
      by apply loop_set_ivar_absent.
    + apply elem_of_cons in Hin as [Hin|Hin]; [congruence|].
      unfold _set_ivar_to_zero at 1. case_decide; [congruence|]. simpl.
      by apply IH.
Qed.

Lemma remove_pixels_field forest p v w n :
  attrs forest !! p = Some v -> pixels p v n -> length w = n ->
  _remove_pixels forest p w = Ok (setattr forest p (slice v w))
  /\ pixels p (slice v w) (n - num_masked w).
Proof.
  intros Hv Hp Hw. unfold _remove_pixels, getattr, pixels in *.
  rewrite Hv. simpl. case_decide.
  - destruct Hp as (m & -> & Hm). unfold column_index.
    rewrite decide_True by (by rewrite Hw). simpl. split; [reflexivity|].
    eexists. split; [reflexivity|].
    apply Forall_map. eapply Forall_impl; [exact Hm|].
    intros row Hr. simpl in *.
    pose proof (select_length row w) as Hs. lia.
  - destruct Hp as (a & -> & Ha). unfold bool_index.
    rewrite decide_True by lia. simpl. split; [reflexivity|].
    eexists. split; [reflexivity|].
    pose proof (select_length a w) as Hs. lia.
Qed.

Lemma loop_remove_pixels n w :
  length w = n ->
  forall fields forest,
    NoDup fields -> has_mask_fields fields forest n ->
    exists forest',
      mask_fields_loop remove_pixels fields forest w = Ok forest'
      /\ los_id forest' = los_id forest
      /\ (forall p, p ∉ fields -> attrs forest' !! p = attrs forest !! p)
      /\ (forall p v, p ∈ fields -> attrs forest !! p = Some v ->
            attrs forest' !! p = Some (slice v w)
            /\ pixels p (slice v w) (n - num_masked w)).
Proof.
  intros Hw. induction fields as [|p fields IH]; intros forest Hnd Hwf.
  - exists forest. simpl. split; [done|]. split; [done|]. split; [done|].
    intros q vq Hq. by apply elem_of_nil in Hq.
  - apply NoDup_cons in Hnd as [Hp Hnd].
    destruct (Hwf p) as (v & Hv & Hpx); [by left|].
    destruct (remove_pixels_field forest p v w n Hv Hpx Hw) as [Hr Hpx'].
    destruct (IH (setattr forest p (slice v w)) Hnd)
      as (forest' & Hl & Hid & Hout & Hin).
    { intros q Hq. destruct (Hwf q) as (vq & Hvq & Hq'); [by right|].
      exists vq. split; [|done]. simpl.
      rewrite lookup_insert_ne; [done|]. intros ->. contradiction. }
    exists forest'. simpl. rewrite Hr. simpl. split; [done|].
    split; [done|]. split.
    + intros q Hq. apply not_elem_of_cons in Hq as [Hqp Hq].
      rewrite (Hout q Hq). simpl. by rewrite lookup_insert_ne.
    + intros q vq Hq Hvq. apply elem_of_cons in Hq as [->|Hq].
      * rewrite Hvq in Hv. inv_ok. split; [|done].
        rewrite (Hout p Hp). simpl. by rewrite lookup_insert_eq.
      * apply Hin; [done|]. simpl.
        rewrite lookup_insert_ne; [done|]. intros ->. contradiction.
Qed.

(** C8. On a forest whose mask fields all have [n] pixels, and a
    keep-mask of length [n]: with keep_masked_pixels=true the masker
    sets ivar to zero at the masked positions and changes nothing else
    (every field keeps its length, every field but ivar its contents);
    with keep_masked_pixels=false every mask field is cut down to the
    kept pixels, 1-D arrays by position and the resolution matrix by
    column, so that each loses exactly the masked-pixel count. *)
Theorem masker_policies fields forest w n :
  NoDup fields -> "ivar" ∈ fields ->
  has_mask_fields fields forest n -> length w = n ->
  (exists ivar,
      attrs forest !! "ivar" = Some (Arr ivar)
      /\ mask_fields_loop (_masker (Mask_init true)) fields forest w
         = Ok (setattr forest "ivar" (Arr (zero_where_not ivar w)))
      /\ length (zero_where_not ivar w) = length ivar
      /\ forall i,
           zero_where_not ivar w !! i
           = match w !! i with
             | Some true => ivar !! i
             | Some false => Some (lit 0)
             | None => None
             end)
  /\ (exists forest',
      mask_fields_loop (_masker (Mask_init false)) fields forest w
        = Ok forest'
      /\ los_id forest' = los_id forest
      /\ (forall p, p ∉ fields -> attrs forest' !! p = attrs forest !! p)
      /\ (forall p v, p ∈ fields -> attrs forest !! p = Some v ->
            attrs forest' !! p = Some (slice v w)
            /\ pixels p (slice v w) (n - num_masked w))).
Proof.
  intros Hnd Hiv Hwf Hw. split.
  - destruct (Hwf "ivar" Hiv) as (v & Hv & Hpx).
    unfold pixels in Hpx. rewrite decide_False in Hpx by done.
    destruct Hpx as (a & -> & Ha). exists a. split; [done|].
    simpl. rewrite loop_set_ivar by done.
    unfold _set_ivar_to_zero, getattr. rewrite decide_True by done.
    rewrite Hv. simpl. unfold bool_assign_zero.
    rewrite decide_True by lia. simpl.
    split; [reflexivity|]. split; [apply zero_where_not_length|].
    intros i. apply zero_where_not_lookup. lia.
  - simpl. by apply loop_remove_pixels.
Qed.

End MaskFacts.

Section DlaFacts.
Context `{Numeric} `{!Special}.

Lemma zip_with_maps {A B C D} (op : B -> C -> D) (f : A -> B) (g : A -> C)
    (l : list A) :
  zip_with op (map f l) (map g l) = map (fun x => op (f x) (g x)) l.
Proof. induction l as [|x l IH]; simpl; [reflexivity | by rewrite IH]. Qed.

Lemma replicate_map {A B} (l : list A) (y : B) :
  replicate (length l) y = map (fun _ => y) l.
Proof. induction l as [|x l IH]; simpl; [reflexivity | by rewrite IH]. Qed.

Lemma fold_profiles lambda_ dlas (g : F -> F) :
  fold_left
    (fun t '(z_abs, nhi) => zip_with fmul t (dla_profile lambda_ z_abs nhi))
    dlas (map g lambda_)
  = map (fun l => fold_left (fun t d => (t * profile_at l d)%fl) dlas (g l))
        lambda_.
Proof.
  revert g. induction dlas as [|[z nhi] dlas IH]; intros g; simpl.
  - reflexivity.
  - unfold dla_profile. rewrite zip_with_maps. rewrite IH. reflexivity.
Qed.

(** The cumulative transmission is, pixel by pixel, the product of the
    profiles of all absorbers. *)
Lemma dla_transmission_pointwise lambda_ dlas :
  dla_transmission lambda_ dlas = map (transmission_at dlas) lambda_.
Proof.
  unfold dla_transmission, transmission_at.
  rewrite replicate_map. apply fold_profiles.
Qed.

Lemma exclude_range_row lambda_ r dlas (g : F -> bool) :
  exclude_range lambda_ (TableRow r) dlas (map g lambda_)
  = Ok (map (fun l => g l && forallb (fun d => outside r d.1 l) dlas)
            lambda_).
Proof.
  revert g. induction dlas as [|[z nhi] dlas IH]; intros g; simpl.
  - f_equal. apply map_ext. intros l. by rewrite andb_true_r.
  - unfold band, bor. rewrite !map_map, !zip_with_maps.
    rewrite IH. f_equal. apply map_ext. intros l.
    unfold outside. simpl. by rewrite andb_assoc.
Qed.

Lemma exclude_ranges_rows lambda_ rows dlas (g : F -> bool) :
  exclude_ranges lambda_ (map TableRow rows) dlas (map g lambda_)
  = Ok (map (fun l =>
               g l && forallb
                        (fun r => forallb (fun d => outside r d.1 l) dlas)
                        rows)
            lambda_).
Proof.
  revert g. induction rows as [|r rows IH]; intros g; simpl.
  - f_equal. apply map_ext. intros l. by rewrite andb_true_r.
  - rewrite exclude_range_row. simpl. rewrite IH. f_equal.
    apply map_ext. intros l. by rewrite andb_assoc.
Qed.

(** On a table of ranges, the loops of lines 275-281 compute the
    documented keep-mask. *)
Lemma keep_mask_rows self lambda_ dlas rows :
  mask self = map TableRow rows ->
  keep_mask self lambda_ dlas
  = Ok (map (fun l => keep_pixel (dla_mask_limit self) rows dlas l
                        (transmission_at dlas l))
            lambda_).
Proof.
  intros Hm. unfold keep_mask. rewrite Hm, dla_transmission_pointwise.
  rewrite map_map. apply exclude_ranges_rows.
Qed.

(** With a table of ranges in [self.mask] and the forest's arrays of one
    length, [apply_mask] multiplies the transmission correction by the
    cumulative transmission and hands the documented keep-mask to the
    masker. *)
Lemma apply_mask_table_rows fields self forest x tc dlas rows :
  attrs forest !! "log_lambda" = Some (Arr x) ->
  attrs forest !! "transmission_correction" = Some (Arr tc) ->
  length tc = length x ->
  los_ids self !! los_id forest = Some dlas ->
  mask self = map TableRow rows ->
  let lambda_ := map pow10 x in
  apply_mask fields self forest
  = mask_fields_loop (_masker (base self)) fields
      (setattr forest "transmission_correction"
         (Arr (zip_with fmul tc (map (transmission_at dlas) lambda_))))
      (map (fun l => keep_pixel (dla_mask_limit self) rows dlas l
                       (transmission_at dlas l))
           lambda_).
Proof.
  intros Hx Htc Hlen Hd Hm lambda_. unfold apply_mask, getattr1, getattr.
  rewrite Hx. simpl. rewrite Hd.
  rewrite (keep_mask_rows self _ dlas rows Hm). simpl.
  rewrite Htc. simpl. rewrite dla_transmission_pointwise.
  unfold inplace2. rewrite decide_True; [reflexivity|].
  rewrite !length_map. done.
Qed.

(** Once [self.mask] holds booleans, the first absorber of the first
    element makes the keep-mask computation raise. *)
Lemma keep_mask_bool_column self lambda_ d dlas b rest :
  mask self = BoolScalar b :: rest ->
  keep_mask self lambda_ (d :: dlas)
  = Raise (IndexError "invalid index to scalar variable.").
Proof. intros Hm. unfold keep_mask. rewrite Hm. by destruct d. Qed.

Lemma apply_mask_bool_column fields self forest x d dlas b rest :
  attrs forest !! "log_lambda" = Some (Arr x) ->
  los_ids self !! los_id forest = Some (d :: dlas) ->
  mask self = BoolScalar b :: rest ->
  apply_mask fields self forest
  = Raise (IndexError "invalid index to scalar variable.").
Proof.
  intros Hx Hd Hm. unfold apply_mask, getattr1, getattr.
  rewrite Hx. simpl. rewrite Hd.
  by rewrite (keep_mask_bool_column self _ d dlas b rest Hm).
Qed.

(** C6. For a forest whose line-of-sight id has no entry in the DLA
    catalogue, [apply_mask] returns the forest as it was: every mask
    field and the transmission correction are unchanged. *)
Theorem apply_mask_without_absorber fields self forest x :
  attrs forest !! "log_lambda" = Some (Arr x) ->
  los_ids self !! los_id forest = None ->
  apply_mask fields self forest = Ok forest.
Proof.
  intros Hx Hd. unfold apply_mask, getattr1, getattr.
  rewrite Hx. simpl. by rewrite Hd.
Qed.

End DlaFacts.

(** * The theorems at concrete inputs, in the rational model *)


Lemma check_linear_binning_cases_witness :
  (2 <= length (log_lambda QModel.three_decades))%nat
  /\ check_linear_binning QModel.three_decades
     = Raise (ValueError msg_lambda_as_log).
Proof.
  split; [simpl; lia|].
  refine (proj1 (proj2 (proj2
            (check_linear_binning_cases QModel.three_decades _)) _ _) _);
    [simpl; lia | reflexivity..].
Defined.

Lemma final_power_combination_witness :
  process_file (QModel.small_args "pipeline" 1 false) QModel.linear_9000
    0%nat (QModel.two_pixels 5 1 2)
  = Ok (Some [QModel.pipeline_record], 1%nat)
  /\ Forall (fun r => aligned r -> pk_is_combined "pipeline" r)
            [QModel.pipeline_record].
Proof.
  split; [reflexivity|].
  refine (@final_power_combination QModel.numeric QModel.pk1d
            (QModel.small_args "pipeline" 1 false) QModel.linear_9000
            0%nat (QModel.two_pixels 5 1 2) _ 1%nat _ _);
    reflexivity.
Defined.

(** C1, with --force-output-in-velocity on a linear grid.  The six
    columns of the record are written under one unit, km/s, but only the
    wavenumbers and the final power have been converted: the final power
    of the emitted record is not (pk_raw - pk_diff) / correction_reso of
    its own columns, here 1349066061/1250 against 36000. *)
Theorem forced_velocity_power_not_combined :
  process_file (QModel.small_args "diff" 1 true) QModel.linear_9000
    0%nat (QModel.two_pixels 5 1 2)
  = Ok (Some [QModel.rescaled_record], 0%nat)
  /\ column_units (QModel.small_args "diff" 1 true)
       (linear_binning QModel.linear_9000)
     = ["(km/s)^-1"; "km/s"; "km/s"; "km/s"; "km/s"; "km/s"]
  /\ aligned QModel.rescaled_record
  /\ ~ pk_is_combined "diff" QModel.rescaled_record.
Proof.
  split; [reflexivity|]. split; [reflexivity|]. split.
  - repeat split.
  - intros (noise & Hn & Hp).
    change (Some [0%Q] = Some noise) in Hn. inv_ok.
    change ([(1349066061 # 1250)%Q] = [36000%Q]) in Hp. discriminate Hp.
Qed.

(** The second file is refused at its check with the [TypeError] of the
    handler, although processing its spectrum would have raised
    UnboundLocalError in this noise mode. *)
Lemma binning_mismatch_aborts_witness :
  process_file (QModel.small_args "white" 1 false) QModel.linear_9000 0%nat
    QModel.two_pixels_far = Raise (UnboundLocalError "pk")
  /\ main (QModel.small_args "white" 1 false) 0%nat
       [[QExamples.low_snr]; [QModel.two_pixels_far]]
     = Raise (TypeError msg_not_exception).
Proof.
  split; [reflexivity|].
  assert (Hd : classification_differs true 9000%Q QModel.two_pixels_far).
  { intros lin2 dl2 Hc. change (Ok (true, 90000%Q) = Ok (lin2, dl2)) in Hc.
    inv_ok. right. reflexivity. }
  destruct (@binning_mismatch_aborts QModel.numeric QModel.pk1d
              (QModel.small_args "white" 1 false) 0%nat
              [QExamples.low_snr] QExamples.low_snr true 9000%Q
              [[QModel.two_pixels_far]] 0%nat [QModel.two_pixels_far]
              QModel.two_pixels_far eq_refl eq_refl eq_refl eq_refl Hd)
    as [_ Himm].
  edestruct Himm as [_ Hm]; [reflexivity | exact Hm].
Defined.

(** A second spectrum of the first file with another bin width (90000
    against 9000) goes through: the run ends normally. *)
Lemma later_spectrum_unchecked_counterexample :
  check_linear_binning (QModel.two_pixels 5 1 2)
    = Ok (true, 9000%Q)
  /\ check_linear_binning QModel.two_pixels_far
    = Ok (true, 90000%Q)
  /\ classification_differs true 9000%Q QModel.two_pixels_far
  /\ exists written,
       main (QModel.small_args "diff" 1 false) 0%nat
         [[QModel.two_pixels 5 1 2; QModel.two_pixels_far]] = Ok written.
Proof.
  split; [reflexivity|]. split; [reflexivity|]. split.
  - intros lin2 dl2 Hc. change (Ok (true, 90000%Q) = Ok (lin2, dl2)) in Hc.
    inv_ok. right. reflexivity.
  - eexists. reflexivity.
Qed.



Lemma segments_requested_witness :
  num_parts (QExamples.diff_args 3 2) QExamples.six_pixels = Ok 2
  /\ process_file (QExamples.diff_args 3 2) QModel.linear_9000
       0%nat QExamples.six_pixels
     = run_parts (QExamples.diff_args 3 2) QModel.linear_9000
         0%nat QExamples.six_pixels 2
  /\ 1 <= 2.
Proof.
  destruct (@segments_requested QModel.numeric QModel.pk1d
              (QExamples.diff_args 3 2)
              QModel.linear_9000 0%nat QExamples.six_pixels) as [Hn _].
  - reflexivity.
  - change (~ 5 < 2). lia.
  - destruct Hn as (Hn & Hp & Hge); [simpl; lia|].
    split; [exact Hn|]. split; [exact Hp|].
    apply Hge; simpl; lia.
Defined.

(** With nb_part = 0 a spectrum that passes every cut has no segment
    requested. *)
Lemma no_segment_requested_counterexample :
  snr_reso_cut (QModel.small_args "diff" 0 false) (QModel.two_pixels 5 1 2)
    = false
  /\ ~ pixels_left (QModel.small_args "diff" 0 false) (QModel.two_pixels 5 1 2)
       < nb_pixel_min (QModel.small_args "diff" 0 false)
  /\ num_parts (QModel.small_args "diff" 0 false) (QModel.two_pixels 5 1 2)
     = Ok 0
  /\ ~ 1 <= 0.
Proof.
  split; [reflexivity|]. split; [change (~ 1 < 1); lia|].
  split; [reflexivity | lia].
Qed.

Lemma unknown_noise_estimate_unbound_witness :
  parse_noise_estimate (Some "white") = Ok "white"
  /\ process_file (QModel.small_args "white" 1 false) QModel.linear_9000
       0%nat (QModel.two_pixels 5 1 2) = Raise (UnboundLocalError "pk").
Proof.
  apply (@unknown_noise_estimate_unbound QModel.numeric QModel.pk1d
           (QModel.small_args "white" 1 false)
           QModel.linear_9000 0%nat (QModel.two_pixels 5 1 2) 1).
  - unfold known_mode. simpl. intuition discriminate.
  - reflexivity.
  - change (~ 1 < 1). lia.
  - reflexivity.
  - eexists 0%nat, _. split; [simpl; lia|].
    split; [reflexivity | change (~ 0 > 40); lia].
Defined.

Lemma apply_mask_without_absorber_witness :
  exists self,
    DlaMask_init (QModel.dla_config false) QModel.dla_catalogue
      (Some (8 # 10)%Q) None = Ok self
    /\ apply_mask QModel.mask_fields self (QModel.forest3 8)
       = Ok (QModel.forest3 8).
Proof.
  eexists. split; [reflexivity|].
  apply (apply_mask_without_absorber QModel.mask_fields _ (QModel.forest3 8)
           [3%Q; 4%Q; 5%Q]); reflexivity.
Defined.

(** C7, at a mask built by [DlaMask.__init__] from a mask file with one
    rest-frame range: [self.mask] then holds the booleans of the column
    comparison, and [apply_mask] on a forest with a catalogued absorber
    raises IndexError instead of handing a keep-mask to the masker. *)
Theorem apply_mask_fails_on_mask_file :
  exists self,
    DlaMask_init (QModel.dla_config true) QModel.dla_catalogue
      (Some (8 # 10)%Q) (Some QModel.mask_file_rows) = Ok self
    /\ mask self = [BoolScalar true]
    /\ los_ids self !! los_id (QModel.forest3 7)
       = Some [((5 # 2)%Q, (41 # 2)%Q)]
    /\ apply_mask QModel.mask_fields self (QModel.forest3 7)
       = Raise (IndexError "invalid index to scalar variable.").
Proof.
  eexists. split; [reflexivity|].
  split; [reflexivity|]. split; [reflexivity|].
  eapply apply_mask_bool_column; reflexivity.
Qed.

Lemma masker_policies_witness :
  exists kept_all removed,
    mask_fields_loop (_masker (Mask_init true)) QModel.mask_fields
      (QModel.forest3 7) [true; false; true] = Ok kept_all
    /\ attrs kept_all !! "ivar" = Some (Arr [4%Q; 0%Q; 6%Q])
    /\ mask_fields_loop (_masker (Mask_init false)) QModel.mask_fields
         (QModel.forest3 7) [true; false; true] = Ok removed
    /\ attrs removed !! "flux" = Some (Arr [1%Q; 3%Q])
    /\ attrs removed !! "resolution_matrix"
       = Some (Arr2 [[1%Q; 3%Q]; [4%Q; 6%Q]]).
Proof.
  destruct (@masker_policies QModel.numeric QModel.mask_fields
              (QModel.forest3 7) [true; false; true] 3)
    as [(ivar & Hiv & Hl & _) (removed & Hr & _ & _ & Hin)].
  - unfold QModel.mask_fields. apply NoDup_ListNoDup.
    repeat constructor; simpl; intuition discriminate.
  - apply list_elem_of_In. simpl. tauto.
  - intros p Hp. unfold QModel.mask_fields in Hp.
    repeat (apply elem_of_cons in Hp as [->|Hp]);
      [..|by apply elem_of_nil in Hp];
      (eexists; split; [reflexivity|]);
      unfold pixels; simpl; eexists; (split; [reflexivity|]);
      repeat constructor.
  - reflexivity.
  - change (Some (Arr [4%Q; 5%Q; 6%Q]) = Some (Arr ivar)) in Hiv. inv_ok.
    exists (setattr (QModel.forest3 7) "ivar"
              (@Arr QModel.numeric
                 (@zero_where_not QModel.numeric [4%Q; 5%Q; 6%Q]
                    [true; false; true]))),
      removed.
    split; [exact Hl|]. split; [reflexivity|].
    split; [exact Hr|].
    destruct (Hin "flux" (@Arr QModel.numeric [1%Q; 2%Q; 3%Q])) as [Hf _];
      [apply list_elem_of_In; simpl; tauto | reflexivity|].
    destruct (Hin "resolution_matrix"
                (@Arr2 QModel.numeric [[1%Q; 2%Q; 3%Q]; [4%Q; 5%Q; 6%Q]]))
      as [Hm _];
      [apply list_elem_of_In; simpl; tauto | reflexivity|].
    split; [exact Hf | exact Hm].
Defined.

(** * Further properties of the driver *)

Section Pk1DMore.
Context `{Numeric} `{!Pk1dLib}.

Lemma np_any_false_all w i :
  np_any w = false -> (i < length w)%nat -> w !! i = Some false.
Proof.
  revert i. induction w as [|b w IH]; intros i Ha Hi; simpl in *; [lia|].
  apply orb_false_iff in Ha as [Hb Ha]. unfold id in Hb. subst b.
  destruct i as [|i]; simpl; [reflexivity|]. apply IH; [done|lia].
Qed.

Lemma np_argmax_first w :
  np_any w = true ->
  (np_argmax w < length w)%nat
  /\ w !! np_argmax w = Some true
  /\ forall i, (i < np_argmax w)%nat -> w !! i = Some false.
Proof.
  induction w as [|b w IH]; intros Ha; simpl in *; [discriminate|].
  destruct b; simpl.
  - split; [lia|]. split; [reflexivity|]. intros i Hi. lia.
  - unfold id in Ha. simpl in Ha. rewrite Ha.
    destruct (IH Ha) as (Hl & Ht & Hb).
    split; [lia|]. split; [exact Ht|].
    intros [|i] Hi; simpl; [reflexivity|]. apply Hb. lia.
Qed.

Lemma first_pixel_index_bounds args d :
  let sel := selected_pixels args d in
  let f := first_pixel_index args d in
  (f <= length sel)%nat
  /\ (forall i, (i < f)%nat -> sel !! i = Some false)
  /\ (forall b, sel !! f = Some b -> b = true).
Proof.
  intros sel f. unfold f, first_pixel_index. fold sel.
  destruct (np_any sel) eqn:Ha.
  - destruct (np_argmax_first sel Ha) as (Hl & Ht & Hb).
    split; [lia|]. split; [exact Hb|]. intros b Hb'. congruence.
  - split; [lia|]. split.
    + intros i Hi. by apply np_any_false_all.
    + intros b Hb. apply lookup_lt_Some in Hb. lia.
Qed.

Lemma pixels_left_nonneg args d : 0 <= pixels_left args d.
Proof.
  destruct (first_pixel_index_bounds args d) as (Hle & _).
  unfold selected_pixels in Hle. rewrite length_map in Hle.
  unfold pixels_left. lia.
Qed.

(** X1. [first_pixel_index] is the position of the first pixel strictly
    past the wavelength floor, or the array length when there is none: it
    never exceeds the length, no pixel before it is selected, and the pixel
    at it (if any) is selected.  So the remaining-pixel count is never
    negative. *)
Theorem first_pixel_index_is_first args d :
  let sel := selected_pixels args d in
  let f := first_pixel_index args d in
  (f <= length (log_lambda d))%nat
  /\ (forall i, (i < f)%nat -> sel !! i = Some false)
  /\ (forall b, sel !! f = Some b -> b = true)
  /\ 0 <= pixels_left args d.
Proof.
  intros sel f.
  destruct (first_pixel_index_bounds args d) as (Hle & Hb & Ht).
  fold sel f in Hle, Hb, Ht.
  assert (Hlen : length sel = length (log_lambda d))
    by (unfold sel, selected_pixels; apply length_map).
  split; [lia|]. split; [exact Hb|]. split; [exact Ht|].
  apply pixels_left_nonneg.
Qed.

(** X2. With a positive nb_pixel_min, the number of parts never exceeds
    nb_part and every part can hold nb_pixel_min pixels:
    num_parts * nb_pixel_min <= remaining pixels. *)
Theorem parts_fit_in_forest args d n :
  0 < nb_pixel_min args ->
  num_parts args d = Ok n ->
  n <= nb_part args
  /\ n * nb_pixel_min args <= pixels_left args d.
Proof.
  intros Hm. unfold num_parts, max_num_parts.
  case_decide; [lia|]. simpl. intros Hn. inv_ok.
  split; [apply Z.le_min_l|].
  pose proof (Z.mul_div_le (pixels_left args d) (nb_pixel_min args) Hm).
  pose proof (Z.le_min_r (nb_part args)
                (pixels_left args d / nb_pixel_min args)).
  nia.
Qed.

(** X3. With nb_pixel_min = 0 no spectrum is rejected for its length.  A
    spectrum that passes the SNR and resolution cuts then yields the
    empty list when some pixel lies past the floor (the floor division
    by zero of a numpy integer gives 0, so no segment is asked for), and
    raises ZeroDivisionError when none does. *)
Theorem zero_nb_pixel_min_outcome args bin rng d :
  nb_pixel_min args = 0 ->
  snr_reso_cut args d = false ->
  process_file args bin rng d =
    if np_any (selected_pixels args d) then Ok (Some [], rng)
    else Raise ZeroDivisionError.
Proof.
  intros Hm Hc. pose proof (pixels_left_nonneg args d) as Hp.
  rewrite process_file_accepted by (rewrite ?Hm; done || lia).
  unfold num_parts, max_num_parts. rewrite decide_True by done.
  destruct (np_any (selected_pixels args d)); [|reflexivity].
  simpl. unfold run_parts.
  replace (Z.to_nat (Z.min (nb_part args) 0)) with 0%nat by lia.
  reflexivity.
Qed.

Lemma emit_part_appends args bin d sp i fl st st' :
  emit_part args bin d sp i fl st = Ok st' ->
  st_exposures_diff st' = st_exposures_diff st
  /\ exists r, st_pk_list st' = st_pk_list st ++ [r].
Proof.
  unfold emit_part.
  destruct (compute_pk_raw _ _ _) as [k raw].
  destruct (compute_pk_noise _ _ _ _ _ _) as [[noise diff] rng'].
  intros He. inv_bind He as pk Hpk. inv_bind He as kp Hkp.
  destruct kp as [k' pk']. inv_bind He as p Hp. inv_bind He as mz Hmz.
  inv_ok. simpl. eauto.
Qed.

Lemma part_loop_length args bin d sp parts :
  forall st st',
    part_loop args bin d sp parts st = Ok st' ->
    (length (st_pk_list st') <= length (st_pk_list st) + length parts)%nat.
Proof.
  induction parts as [|i parts IH]; intros st st' Hl; simpl in Hl.
  - inv_ok. lia.
  - inv_bind Hl as st1 Hs. apply IH in Hl.
    destruct (part_step_cases _ _ _ _ _ _ _ Hs) as (eda & fl & _ & Hc).
    simpl in Hc. case_decide.
    + subst st1. simpl in *. lia.
    + apply emit_part_appends in Hc as (_ & r & Hr).
      rewrite Hr, length_app in Hl. simpl in *. lia.
Qed.

(** X4. [process_file] never returns more records than nb_part. *)
Theorem emitted_at_most_nb_part args bin rng d recs rng' :
  process_file args bin rng d = Ok (Some recs, rng') ->
  (length recs <= Z.to_nat (nb_part args))%nat.
Proof.
  intros Hp. apply process_file_Some in Hp as (n & st & Hn & Hl & ->).
  apply part_loop_length in Hl. simpl in Hl. rewrite length_seq in Hl.
  unfold num_parts in Hn. inv_bind Hn as m Hm. inv_ok.
  pose proof (Z.le_min_l (nb_part args) m). lia.
Qed.

Lemma part_loop_all_skipped args bin d sp :
  forall len start st,
    untouched_from start (exposures_diff_array sp) (st_exposures_diff st) ->
    (forall i, (start <= i < start + len)%nat ->
       exists fl, part_filled args bin sp i = Ok fl
                  /\ num_masked_pixels fl > nb_pixel_masked_max args) ->
    exists st',
      part_loop args bin d sp (seq start len) st = Ok st'
      /\ st_rng st' = st_rng st /\ st_pk_list st' = st_pk_list st.
Proof.
  induction len as [|len IH]; intros start st Hun Hall; simpl.
  - eauto.
  - destruct (Hall start) as (fl & Hp & Hm); [lia|].
    destruct (fill_part_untouched args bin sp _ _ _ Hun Hp)
      as (eda' & Hf & Hun').
    unfold part_step. rewrite Hf. simpl. rewrite decide_True by done. simpl.
    destruct (IH (S start)
                {| st_exposures_diff := eda'; st_rng := st_rng st;
                   st_pk := st_pk st; st_pk_list := st_pk_list st |})
      as (st' & Hl & Hr & Hk); [done | intros i Hi; apply Hall; lia |].
    eauto.
Qed.

(** X5. When every segment has more masked pixels than
    nb_pixel_masked_max, [process_file] ends normally with the empty
    list, whatever the noise-estimate string: an unknown mode only fails
    once a segment survives. *)
Theorem all_segments_masked args bin rng d n :
  snr_reso_cut args d = false ->
  ~ pixels_left args d < nb_pixel_min args ->
  num_parts args d = Ok n ->
  (forall i, (i < Z.to_nat n)%nat ->
     exists fl,
       part_filled args bin (call_split_forest args bin d n) i = Ok fl
       /\ num_masked_pixels fl > nb_pixel_masked_max args) ->
  exists rng', process_file args bin rng d = Ok (Some [], rng').
Proof.
  intros Hc Hp Hn Hall. rewrite process_file_accepted by done.
  rewrite Hn. simpl. unfold run_parts.
  destruct (part_loop_all_skipped args bin d
              (call_split_forest args bin d n) (Z.to_nat n) 0%nat
              {| st_exposures_diff :=
                   exposures_diff_array (call_split_forest args bin d n);
                 st_rng := rng; st_pk := None; st_pk_list := [] |})
    as (st' & Hl & Hr & Hk).
  - by intros j _.
  - intros i Hi. apply Hall. lia.
  - exists (st_rng st'). rewrite Hl. simpl. simpl in Hk. by rewrite Hk.
Qed.

End Pk1DMore.

(** * Further properties of [main] *)

Section MainMore.
Context `{Numeric} `{!Pk1dLib}.



Lemma process_deltas_length args bin deltas :
  forall rng out rng',
    process_deltas args bin rng deltas = Ok (out, rng') ->
    length out = length deltas.
Proof.
  induction deltas as [|d deltas IH]; intros rng out rng' Hp; simpl in Hp.
  - by inv_ok.
  - inv_bind Hp as r Hr. destruct r as [r rng1].
    inv_bind Hp as rs Hrs. destruct rs as [rs rng2]. inv_ok.
    simpl. f_equal. by eapply IH.
Qed.

Lemma file_loop_shape args :
  forall files idx st st',
    file_loop args idx files st = Ok st' ->
    exists new,
      m_written st' = m_written st ++ new
      /\ Forall2 (fun out deltas => length out = length deltas) new files.
Proof.
  induction files as [|f files IH]; intros idx st st' Hl; simpl in Hl.
  - inv_ok. exists []. by rewrite app_nil_r.
  - inv_bind Hl as st1 Hs.
    destruct (IH _ _ _ Hl) as (new & Hw & Hn).
    unfold file_step in Hs. inv_bind Hs as d0 Hd0.
    inv_bind Hs as bin Hbin. inv_bind Hs as r Hr. destruct r as [out rng'].
    inv_ok. simpl in Hw. exists (out :: new).
    split; [by rewrite Hw, <- app_assoc|].
    constructor; [|done]. by eapply process_deltas_length.
Qed.

(** X7. A run that ends normally has produced one result list per input
    file, in order, each with one entry (the segment list or None) per
    spectrum of that file. *)
Theorem main_output_shape args rng files written :
  main args rng files = Ok written ->
  Forall2 (fun out deltas => length out = length deltas) written files.
Proof.
  unfold main. intros Hm. inv_bind Hm as st Hst. inv_ok.
  apply file_loop_shape in Hst as (new & Hw & Hn). simpl in Hw.
  by rewrite Hw.
Qed.

(** X8. When the first spectrum of the first file cannot be classified,
    the run ends with the classifier's ValueError: nothing is processed. *)
Theorem unclassified_first_file_aborts args rng d0 deltas rest e :
  check_linear_binning d0 = Raise e ->
  main args rng ((d0 :: deltas) :: rest) = Raise e.
Proof.
  intros Hc. unfold main. simpl. unfold file_step. simpl.
  unfold first_file_binning. rewrite Hc. reflexivity.
Qed.

End MainMore.

(** * Further properties of the blinding *)

(** X9. [set_blinding] is idempotent: a second call with the same flags
    changes nothing and logs no further warning. *)
Theorem set_blinding_idempotent (is_mock is_sv : bool) (s : BlindingState) :
  set_blinding is_mock is_sv (set_blinding is_mock is_sv s)
  = set_blinding is_mock is_sv s.
Proof.
  unfold set_blinding, blinding_override, publish_blinding.
  destruct s as [b fb w].
  destruct is_mock, is_sv; simpl;
    repeat (case_decide; simpl in *; try congruence).
Qed.

(** X10. When [DesiData.__init__] completes, the configured blinding was
    one of the accepted strategies, and [Forest.blinding] and
    [self.blinding] are the value forced by [is_mock] and [is_sv]. *)
Theorem DesiData_init_blinding accepted config is_mock is_sv fb log s :
  DesiData_init accepted config (Done (is_mock, is_sv)) fb log = Done s ->
  (exists b, config !! "blinding" = Some b /\ b ∈ accepted)
  /\ Forest_blinding s = Some (blinding_target is_mock is_sv)
  /\ self_blinding s = blinding_target is_mock is_sv.
Proof.
  unfold DesiData_init, parse_config.
  destruct (config !! "blinding") as [b|]; [|discriminate].
  case_bool_decide as Hb; [|discriminate].
  destruct (getboolean config "use non-coadded spectra") as [[u|]|e];
    try discriminate.
  intros Hs. injection Hs as <-. split; [eauto|].
  unfold set_blinding, blinding_target, blinding_override.
  destruct is_mock, is_sv; simpl; case_decide; simpl; split; congruence.
Qed.

(** * Further properties of the maskers *)

Section MaskMore.
Context `{Numeric}.

Lemma setattr_same forest p v :
  attrs forest !! p = Some v -> setattr forest p v = forest.
Proof.
  intros Hv. destruct forest as [id m]. unfold setattr. simpl in *.
  f_equal. by apply insert_id.
Qed.

Lemma select_all {A} (a : list A) :
  select a (replicate (length a) true) = a.
Proof. induction a as [|x a IH]; simpl; [reflexivity | by rewrite IH]. Qed.

Lemma zero_where_not_all (a : list F) :
  zero_where_not a (replicate (length a) true) = a.
Proof. induction a as [|x a IH]; simpl; [reflexivity | by rewrite IH]. Qed.

Lemma select_all_rows (mx : list (list F)) n :
  Forall (fun row => length row = n) mx ->
  map (fun row => select row (replicate n true)) mx = mx.
Proof.
  induction 1 as [|row mx Hrow Hm IH]; simpl; [reflexivity|].
  rewrite IH. f_equal. rewrite <- Hrow. apply select_all.
Qed.

Lemma call_masker_keep_all m forest p v n :
  attrs forest !! p = Some v -> pixels p v n ->
  call_masker m forest p (replicate n true) = Ok forest.
Proof.
  intros Hv Hp. destruct m; simpl.
  - unfold _set_ivar_to_zero. case_decide as Hi; [|reflexivity]. subst p.
    unfold getattr. rewrite Hv. simpl.
    unfold pixels in Hp. rewrite decide_False in Hp by done.
    destruct Hp as (a & -> & <-). unfold bool_assign_zero.
    rewrite decide_True by (by rewrite length_replicate). simpl.
    rewrite zero_where_not_all. by rewrite setattr_same.
  - destruct (remove_pixels_field forest p v (replicate n true) n Hv Hp)
      as [Hr _]; [apply length_replicate|].
    rewrite Hr. f_equal. apply setattr_same. rewrite Hv. f_equal.
    unfold pixels in Hp. case_decide.
    + destruct Hp as (mx & -> & Hm). simpl. f_equal.
      symmetry. by apply select_all_rows.
    + destruct Hp as (a & -> & <-). simpl. by rewrite select_all.
Qed.

(** X11. A keep-mask that keeps every pixel leaves the forest exactly as
    it was, under either masking policy. *)
Theorem keep_all_is_identity m fields forest n :
  has_mask_fields fields forest n ->
  mask_fields_loop m fields forest (replicate n true) = Ok forest.
Proof.
  induction fields as [|p fields IH]; intros Hwf; simpl; [reflexivity|].
  destruct (Hwf p) as (v & Hv & Hp); [by left|].
  rewrite (call_masker_keep_all m forest p v n Hv Hp). simpl.
  apply IH. intros q Hq. apply Hwf. by right.
Qed.

Lemma zero_where_not_twice (a : list F) w :
  zero_where_not (zero_where_not a w) w = zero_where_not a w.
Proof.
  revert w. induction a as [|x a IH]; intros [|b w]; simpl; try done.
  rewrite IH. by destruct b.
Qed.

Lemma zero_rows_where_not_length (m : list (list F)) w :
  length (zero_rows_where_not m w) = length m.
Proof.
  revert w. induction m as [|r m IH]; intros [|b w]; simpl; try done.
  by rewrite IH.
Qed.

Lemma zero_rows_where_not_twice (m : list (list F)) w :
  zero_rows_where_not (zero_rows_where_not m w) w = zero_rows_where_not m w.
Proof.
  revert w. induction m as [|r m IH]; intros [|b w]; simpl; try done.
  rewrite IH. destruct b; [done|]. by rewrite map_map.
Qed.

(** X12. [_set_ivar_to_zero] is idempotent: once it has succeeded,
    applying it again with the same keep-mask succeeds and changes
    nothing. *)
Theorem set_ivar_to_zero_idempotent forest param w forest' :
  _set_ivar_to_zero forest param w = Ok forest' ->
  _set_ivar_to_zero forest' param w = Ok forest'.
Proof.
  unfold _set_ivar_to_zero. case_decide; [|done].
  intros Hs. inv_bind Hs as v Hv. unfold getattr in Hv.
  destruct (attrs forest !! "ivar") as [v0|]; [|discriminate]. inv_ok.
  destruct v as [a|m].
  - inv_bind Hs as a' Ha. inv_ok. unfold bool_assign_zero in Ha.
    case_decide as El; [|discriminate]. inv_ok.
    unfold getattr, setattr. simpl. rewrite lookup_insert_eq. simpl.
    unfold bool_assign_zero.
    rewrite decide_True by (by rewrite zero_where_not_length). simpl.
    rewrite zero_where_not_twice. by rewrite insert_insert_eq.
  - case_decide as El; [|discriminate]. inv_ok.
    unfold getattr, setattr. simpl. rewrite lookup_insert_eq. simpl.
    rewrite decide_True by (by rewrite zero_rows_where_not_length).
    rewrite zero_rows_where_not_twice. by rewrite insert_insert_eq.
Qed.

Lemma num_masked_le (w : list bool) : (num_masked w <= length w)%nat.
Proof. induction w as [|[] w IH]; simpl; lia. Qed.

Lemma remove_pixels_short forest param b w :
  param <> "resolution_matrix" ->
  attrs forest !! param = Some (Arr b) ->
  length b <> length w ->
  _remove_pixels forest param w
  = Raise (IndexError "boolean index did not match indexed array").
Proof.
  intros Hp Hb Hl. unfold _remove_pixels, getattr. rewrite Hb. simpl.
  rewrite decide_False by done. unfold bool_index.
  by rewrite decide_False.
Qed.

(** X13. [_remove_pixels] is not: removing the pixels of a 1-D field a
    second time with the same keep-mask raises IndexError as soon as the
    mask drops a pixel, because the field is then shorter than the
    mask. *)
Theorem remove_pixels_twice_raises forest param a w :
  param <> "resolution_matrix" ->
  attrs forest !! param = Some (Arr a) ->
  length a = length w ->
  (0 < num_masked w)%nat ->
  _remove_pixels forest param w
    ≫= (fun forest' => _remove_pixels forest' param w)
  = Raise (IndexError "boolean index did not match indexed array").
Proof.
  intros Hp Ha El Hm.
  destruct (remove_pixels_field forest param (Arr a) w (length w))
    as [Hr _]; [done | | done |].
  { unfold pixels. rewrite decide_False by done. eauto. }
  rewrite Hr. simpl.
  apply (remove_pixels_short _ _ (select a w)); [done | |].
  - simpl. apply lookup_insert_eq.
  - pose proof (select_length a w El). lia.
Qed.

End MaskMore.

(** * Further properties of the DLA mask *)

Section DlaMore.
Context `{Numeric} `{!Special}.

Lemma group_fold_lookup (cat : list (Z * F * F)) :
  forall (m : gmap Z (list (F * F))) id,
    fold_left
      (fun m '(i, z, nhi) => <[i := default [] (m !! i) ++ [(z, nhi)]]> m)
      cat m !! id
    = match absorbers_of id cat with
      | [] => m !! id
      | rows => Some (default [] (m !! id) ++ rows)
      end.
Proof.
  induction cat as [|[[i z] nhi] cat IH]; intros m id; simpl; [reflexivity|].
  rewrite IH. destruct (decide (i = id)) as [->|Hne].
  - rewrite lookup_insert_eq. simpl.
    destruct (absorbers_of id cat); [reflexivity|].
    by rewrite <- app_assoc.
  - by rewrite lookup_insert_ne.
Qed.

(** X14. The catalogue grouped by [DlaMask.__init__] maps a line-of-sight
    id to the (z, NHI) pairs of its rows, in catalogue order, and has no
    entry for an id without rows: an entry is never an empty list. *)
Theorem group_los_ids_lookup (cat : list (Z * F * F)) id :
  group_los_ids cat !! id
  = match absorbers_of id cat with
    | [] => None
    | rows => Some rows
    end.
Proof.
  unfold group_los_ids. rewrite group_fold_lookup, lookup_empty. reflexivity.
Qed.

(** X15. A [DlaMask] built by [__init__] always masks by zeroing ivar:
    the section handed to [Mask.__init__] as [keep_masked_pixels] is true
    as soon as it holds the required 'filename' option. *)
Theorem DlaMask_init_keeps_pixels config cat limit mask_table self :
  DlaMask_init config cat limit mask_table = Ok self ->
  _masker (base self) = set_ivar_to_zero.
Proof.
  unfold DlaMask_init. case_decide as Hf; [discriminate|].
  case_decide; [discriminate|]. destruct limit; [|discriminate].
  intros Hs. inv_ok. simpl.
  rewrite bool_decide_eq_true_2; [reflexivity|].
  intros ->. by rewrite lookup_empty in Hf.
Qed.

(** X16. Without a mask file, [apply_mask] of a [DlaMask] built by
    [__init__] on a forest with catalogued absorbers multiplies the
    transmission correction by the cumulative transmission, sets ivar to
    zero where that transmission is not above the limit, and changes
    nothing else: no pixel is removed. *)
Theorem apply_mask_zeroes_ivar config cat limit self fields forest
    x tc iv dlas :
  DlaMask_init config cat (Some limit) None = Ok self ->
  NoDup fields -> "ivar" ∈ fields ->
  attrs forest !! "log_lambda" = Some (Arr x) ->
  attrs forest !! "transmission_correction" = Some (Arr tc) ->
  attrs forest !! "ivar" = Some (Arr iv) ->
  length tc = length x -> length iv = length x ->
  absorbers_of (los_id forest) cat = dlas -> dlas <> [] ->
  let lambda_ := map pow10 x in
  let w := map (fun l => fgt (transmission_at dlas l) limit) lambda_ in
  apply_mask fields self forest
  = Ok (setattr
          (setattr forest "transmission_correction"
             (Arr (zip_with fmul tc (map (transmission_at dlas) lambda_))))
          "ivar" (Arr (zero_where_not iv w))).
Proof.
  intros Hinit Hnd Hin Hx Htc Hiv Ltc Liv Hd Hne lambda_ w.
  assert (Hself : _masker (base self) = set_ivar_to_zero
                  /\ los_ids self = group_los_ids cat
                  /\ dla_mask_limit self = limit /\ mask self = []).
  { unfold DlaMask_init in Hinit.
    destruct (decide (config !! "filename" = None)) as [|Hf]; [discriminate|].
    destruct (decide (config !! "los_id name" = None)); [discriminate|].
    inv_ok. simpl. split; [|done].
    rewrite bool_decide_eq_true_2; [reflexivity|].
    intros ->. by rewrite lookup_empty in Hf. }
  destruct Hself as (Hm & Hl & Hlim & Hmask).
  assert (Hlook : los_ids self !! los_id forest = Some dlas).
  { rewrite Hl. unfold group_los_ids.
    rewrite group_fold_lookup, lookup_empty, Hd. by destruct dlas. }
  rewrite (apply_mask_table_rows fields self forest x tc dlas [])
    by done.
  rewrite Hm, loop_set_ivar by done.
  unfold _set_ivar_to_zero, getattr. rewrite decide_True by done.
  simpl. rewrite lookup_insert_ne by done. rewrite Hiv. simpl.
  unfold bool_assign_zero. rewrite decide_True by (by rewrite !length_map).
  simpl. rewrite Hlim. do 4 f_equal. apply map_ext. intros l.
  unfold keep_pixel. simpl. apply andb_true_r.
Qed.

End DlaMore.

(** * What masking and a longer run leave alone *)

Section Frames.
Context `{Numeric} `{!Special}.

Lemma call_masker_frame m forest p w forest' :
  call_masker m forest p w = Ok forest' ->
  los_id forest' = los_id forest
  /\ forall q, q <> p -> attrs forest' !! q = attrs forest !! q.
Proof.
  destruct m; simpl.
  - unfold _set_ivar_to_zero. case_decide as Hp; [|intros; by inv_ok].
    subst p. intros Hs. inv_bind Hs as v Hv. destruct v as [a|mx].
    + inv_bind Hs as a' Ha. inv_ok. simpl. split; [done|].
      intros q Hq. by rewrite lookup_insert_ne.
    + case_decide; [|discriminate]. inv_ok. simpl. split; [done|].
      intros q Hq. by rewrite lookup_insert_ne.
  - unfold _remove_pixels. intros Hs. inv_bind Hs as v Hv.
    case_decide; destruct v as [a|mx]; try discriminate;
      inv_bind Hs as x Hx; inv_ok; simpl; (split; [done|]);
      intros q Hq; by rewrite lookup_insert_ne.
Qed.

Lemma mask_fields_loop_frame m fields w :
  forall forest forest',
    mask_fields_loop m fields forest w = Ok forest' ->
    los_id forest' = los_id forest
    /\ forall q, q ∉ fields -> attrs forest' !! q = attrs forest !! q.
Proof.
  induction fields as [|p fields IH]; intros forest forest' Hl; simpl in Hl.
  - by inv_ok.
  - inv_bind Hl as f1 Hf1.
    apply call_masker_frame in Hf1 as [Hid Hat].
    apply IH in Hl as [Hid' Hat']. split; [congruence|].
    intros q Hq. apply not_elem_of_cons in Hq as [Hqp Hq].
    rewrite Hat' by done. by apply Hat.
Qed.

(** X17. Whatever the catalogue, the mask table and the masking policy, a
    call of [apply_mask] that returns keeps the forest's line-of-sight id
    and every attribute other than the transmission correction and the
    mask fields. *)
Theorem apply_mask_frame fields self forest forest' :
  apply_mask fields self forest = Ok forest' ->
  los_id forest' = los_id forest
  /\ forall q, q ∉ fields -> q <> "transmission_correction" ->
       attrs forest' !! q = attrs forest !! q.
Proof.
  unfold apply_mask. intros Ha. inv_bind Ha as x Hx.
  destruct (los_ids self !! los_id forest) as [dlas|]; [|by inv_ok].
  inv_bind Ha as w Hw. inv_bind Ha as tc Htc. inv_bind Ha as tc' Htc'.
  apply mask_fields_loop_frame in Ha as [Hid Hat]. simpl in *.
  split; [done|]. intros q Hq Hne. rewrite Hat by done.
  by rewrite lookup_insert_ne.
Qed.

End Frames.

Section Prefix.
Context `{Numeric} `{!Pk1dLib}.

Lemma file_loop_written args :
  forall files idx st st',
    file_loop args idx files st = Ok st' ->
    exists new, m_written st' = m_written st ++ new.
Proof.
  induction files as [|f files IH]; intros idx st st' Hl; simpl in Hl.
  - inv_ok. exists []. by rewrite app_nil_r.
  - inv_bind Hl as st1 Hs. destruct (IH _ _ _ Hl) as (new & Hw).
    unfold file_step in Hs. inv_bind Hs as d0 Hd0.
    inv_bind Hs as bin Hbin. inv_bind Hs as r Hr. destruct r as [out rng'].
    inv_ok. simpl in Hw. exists (out :: new). by rewrite Hw, <- app_assoc.
Qed.

(** X18. Appending input files does not change what is produced for the
    files before them: if the longer run ends normally, so does the
    shorter one, and its output is a prefix of the longer run's. *)
Theorem main_prefix args rng files more written :
  main args rng (files ++ more) = Ok written ->
  exists first rest,
    main args rng files = Ok first /\ written = first ++ rest.
Proof.
  unfold main. intros Hm. inv_bind Hm as st Hst. inv_ok.
  rewrite file_loop_app in Hst. inv_bind Hst as st1 Hst1.
  apply file_loop_written in Hst as (new & Hw).
  exists (m_written st1), new. rewrite Hst1. done.
Qed.

End Prefix.

(** * The further properties at concrete inputs *)

Lemma parts_fit_in_forest_witness :
  2 <= nb_part QModel.strict_args
  /\ 2 * nb_pixel_min QModel.strict_args
     <= pixels_left QModel.strict_args QModel.four_pixels.
Proof.
  apply (@parts_fit_in_forest QModel.numeric QModel.strict_args
           QModel.four_pixels 2); [simpl; lia | reflexivity].
Defined.

Lemma zero_nb_pixel_min_outcome_witness :
  process_file (QExamples.white_args 0) QModel.linear_9000 0%nat
    QExamples.all_masked = Ok (Some [], 0%nat)
  /\ process_file (QExamples.diff_args 1 0) QModel.linear_9000 0%nat
       QExamples.below_floor = Raise ZeroDivisionError.
Proof.
  split.
  - apply (@zero_nb_pixel_min_outcome QModel.numeric QModel.pk1d
             (QExamples.white_args 0) QModel.linear_9000 0%nat
             QExamples.all_masked); reflexivity.
  - apply (@zero_nb_pixel_min_outcome QModel.numeric QModel.pk1d
             (QExamples.diff_args 1 0) QModel.linear_9000 0%nat
             QExamples.below_floor); reflexivity.
Defined.

Lemma emitted_at_most_nb_part_witness :
  (length [QModel.pipeline_record]
   <= Z.to_nat (nb_part (QModel.small_args "pipeline" 1 false)))%nat.
Proof.
  apply (@emitted_at_most_nb_part QModel.numeric QModel.pk1d
           (QModel.small_args "pipeline" 1 false) QModel.linear_9000
           0%nat (QModel.two_pixels 5 1 2) [QModel.pipeline_record] 1%nat).
  reflexivity.
Defined.

Lemma all_segments_masked_witness :
  exists rng',
    process_file (QExamples.white_args 1) QModel.linear_9000 0%nat
      QExamples.all_masked = Ok (Some [], rng').
Proof.
  apply (@all_segments_masked QModel.numeric QModel.pk1d
           (QExamples.white_args 1) QModel.linear_9000 0%nat
           QExamples.all_masked 2).
  - reflexivity.
  - change (~ 2 < 1). lia.
  - reflexivity.
  - intros i Hi. change (i < 2)%nat in Hi.
    destruct i as [|[|i]]; [| |lia];
      (eexists; split; [reflexivity | change (1 > 0); lia]).
Defined.


Lemma main_output_shape_witness :
  exists written,
    main (QModel.small_args "diff" 1 false) 0%nat
      [[QModel.two_pixels 5 1 2; QModel.two_pixels_far]] = Ok written
    /\ Forall2 (fun out deltas => length out = length deltas) written
         [[QModel.two_pixels 5 1 2; QModel.two_pixels_far]].
Proof.
  eexists. split; [reflexivity|].
  apply (@main_output_shape QModel.numeric QModel.pk1d
           (QModel.small_args "diff" 1 false) 0%nat).
  reflexivity.
Defined.

Lemma unclassified_first_file_aborts_witness :
  main (QModel.small_args "diff" 1 false) 0%nat
    [[QModel.three_decades]; [QModel.two_pixels 5 1 2]]
  = Raise (ValueError msg_lambda_as_log).
Proof.
  apply (@unclassified_first_file_aborts QModel.numeric QModel.pk1d).
  reflexivity.
Defined.

Lemma DesiData_init_blinding_witness :
  exists s,
    DesiData_init QExamples.accepted_strategies
      (QExamples.desi_config "none" "False") (Done (false, false))
      None [] = Done s
    /\ Forest_blinding s = Some "corr_yshift".
Proof.
  eexists. split; [reflexivity|].
  refine (proj1 (proj2 (DesiData_init_blinding
                          QExamples.accepted_strategies
                          (QExamples.desi_config "none" "False")
                          false false None [] _ _))).
  reflexivity.
Defined.

Lemma has_mask_fields_forest3 :
  @has_mask_fields QModel.numeric QModel.mask_fields (QModel.forest3 7) 3.
Proof.
  intros p Hp. unfold QModel.mask_fields in Hp.
  repeat (apply elem_of_cons in Hp as [->|Hp]);
    [..|by apply elem_of_nil in Hp];
    (eexists; split; [reflexivity|]);
    unfold pixels; simpl; eexists; (split; [reflexivity|]);
    repeat constructor.
Qed.

Lemma keep_all_is_identity_witness :
  mask_fields_loop remove_pixels QModel.mask_fields (QModel.forest3 7)
    [true; true; true] = Ok (QModel.forest3 7).
Proof.
  apply (@keep_all_is_identity QModel.numeric remove_pixels
           QModel.mask_fields (QModel.forest3 7) 3).
  exact has_mask_fields_forest3.
Defined.

Lemma set_ivar_to_zero_idempotent_witness :
  exists forest',
    _set_ivar_to_zero (QModel.forest3 7) "ivar" [true; false; true]
      = Ok forest'
    /\ _set_ivar_to_zero forest' "ivar" [true; false; true] = Ok forest'.
Proof.
  eexists. split; [reflexivity|].
  apply (@set_ivar_to_zero_idempotent QModel.numeric (QModel.forest3 7)).
  reflexivity.
Defined.

Lemma remove_pixels_twice_raises_witness :
  _remove_pixels (QModel.forest3 7) "flux" [true; false; true]
    ≫= (fun forest' => _remove_pixels forest' "flux" [true; false; true])
  = Raise (IndexError "boolean index did not match indexed array").
Proof.
  apply (@remove_pixels_twice_raises QModel.numeric (QModel.forest3 7)
           "flux" [1%Q; 2%Q; 3%Q] [true; false; true]).
  - discriminate.
  - reflexivity.
  - reflexivity.
  - simpl. lia.
Defined.

Lemma DlaMask_init_keeps_pixels_witness :
  exists self,
    DlaMask_init (QModel.dla_config false) QExamples.catalogue3
      (Some (8 # 10)%Q) None = Ok self
    /\ _masker (base self) = set_ivar_to_zero.
Proof.
  eexists. split; [reflexivity|].
  apply (@DlaMask_init_keeps_pixels QModel.numeric
           (QModel.dla_config false) QExamples.catalogue3
           (Some (8 # 10)%Q) None).
  reflexivity.
Defined.

Lemma apply_mask_zeroes_ivar_witness :
  exists self tc' ivar',
    DlaMask_init (QModel.dla_config false) QExamples.catalogue3
      (Some (8 # 10)%Q) None = Ok self
    /\ apply_mask QExamples.four_fields self (QModel.forest3 7)
       = Ok (setattr (setattr (QModel.forest3 7)
                        "transmission_correction" (Arr tc'))
                     "ivar" (Arr ivar'))
    /\ length tc' = 3%nat /\ length ivar' = 3%nat.
Proof.
  eexists _, _, _. split; [reflexivity|]. split.
  - apply (@apply_mask_zeroes_ivar QModel.numeric QModel.special
             (QModel.dla_config false) QExamples.catalogue3 (8 # 10)%Q _
             QExamples.four_fields (QModel.forest3 7)
             [3%Q; 4%Q; 5%Q] [1%Q; 1%Q; 1%Q] [4%Q; 5%Q; 6%Q]
             [((5 # 2)%Q, (41 # 2)%Q); ((27 # 10)%Q, 20%Q)]);
      try reflexivity.
    + apply NoDup_ListNoDup. repeat constructor; simpl; intuition discriminate.
    + apply list_elem_of_In. simpl. tauto.
    + discriminate.
  - split; reflexivity.
Defined.

Lemma apply_mask_frame_witness :
  exists self forest',
    DlaMask_init (QModel.dla_config false) QExamples.catalogue3
      (Some (8 # 10)%Q) None = Ok self
    /\ apply_mask QExamples.four_fields self (QModel.forest3 7) = Ok forest'
    /\ attrs forest' !! "resolution_matrix"
       = attrs (QModel.forest3 7) !! "resolution_matrix".
Proof.
  assert (Hout : "resolution_matrix" ∉ QExamples.four_fields).
  { intros Hin. apply list_elem_of_In in Hin. simpl in Hin.
    intuition discriminate. }
  eexists _, _. split; [reflexivity|].
  match goal with
  | |- apply_mask ?f ?s ?fo = Ok ?r /\ _ =>
      assert (Hrun : apply_mask f s fo = Ok r) by reflexivity;
      split; [exact Hrun|];
      apply (proj2 (@apply_mask_frame QModel.numeric QModel.special
                      f s fo r Hrun));
      [exact Hout | discriminate]
  end.
Defined.

Lemma main_prefix_witness :
  exists first rest,
    main (QModel.small_args "diff" 1 false) 0%nat [[QModel.two_pixels 1 1 2]]
      = Ok first
    /\ [[None]; [None]] = first ++ rest.
Proof.
  apply (@main_prefix QModel.numeric QModel.pk1d
           (QModel.small_args "diff" 1 false) 0%nat
           [[QModel.two_pixels 1 1 2]] [[QModel.two_pixels 1 3 4]]
           [[None]; [None]]).
  reflexivity.
Defined.
